(** * goduino: the 7-bit codec and the Goduino facade over a Firmata board

    A shallow embedding of the 7-bit helpers of package [goduino]
    ([from7Bit], [to7Bit], [intto7Bit], [multibyteString]) and of
    [goduino.go] (the [Goduino] client, written against the [firmataBoard]
    interface).

    Conventions.
    - A Go [byte] is a [Z] in [0, 256); operations that can leave that range
      in mathematics ([<<] on a byte, the conversion [byte(x)]) have their
      wrap-around written out.
    - A Go [int] is a 64-bit two's complement integer, a [Z] in
      [-2^63, 2^63); [+] on it wraps.
    - A Go [string] is its sequence of bytes; the conversion [string(b)] of
      an integer value yields the UTF-8 encoding of the code point [b].
    - A Go [error] value is [option error]: [None] is [nil]. *)

From Stdlib Require Import String.
From Stdlib Require DecimalString.
From Stdlib Require Import ZArith List Bool Lia.
Import ListNotations.

Local Open Scope Z_scope.

(* ================================================================= *)
(** ** Machine integers *)

(** Go's [byte] (an alias of [uint8]). *)
Module U8.

Definition t := Z.

Definition in_range (b : Z) : Prop := 0 <= b < 256.

(** [byte(x)]: conversion of an integer to [uint8] keeps the low 8 bits. *)
Definition of_int (x : Z) : t := x mod 256.

Definition and (a b : t) : t := Z.land a b.
Definition or (a b : t) : t := Z.lor a b.

(** [a << n] on a byte: the bits shifted past bit 7 are lost. *)
Definition shl (a : t) (n : Z) : t := (Z.shiftl a n) mod 256.

(** [a >> n] on a byte (logical, the type is unsigned). *)
Definition shr (a : t) (n : Z) : t := Z.shiftr a n.

(** The 256 values of the type, for proofs by exhaustion. *)
Definition all : list t := map Z.of_nat (seq 0 256).

End U8.

(** Go's [int], taken at 64 bits. *)
Module Int.

Definition t := Z.

Definition min_int : Z := - 2 ^ 63.
Definition max_int : Z := 2 ^ 63 - 1.

Definition in_range (i : Z) : Prop := min_int <= i <= max_int.

(** Two's complement wrap-around of a mathematical result. *)
Definition wrap (z : Z) : t := (z + 2 ^ 63) mod 2 ^ 64 - 2 ^ 63.

Definition add (a b : t) : t := wrap (a + b).

End Int.

(* ================================================================= *)
(** ** Go strings *)

(** A string is its bytes. *)
Definition gostring := list U8.t.

(** [string(b)] for a byte [b]: "converting an integer value to a string
    type yields a string containing the UTF-8 representation of the
    integer".  A byte is a code point below U+0100, so the encoding has one
    byte (below U+0080) or two. *)
Definition string_of_byte (b : U8.t) : gostring :=
  if b <? 128 then [b]
  else [Z.lor 192 (Z.shiftr b 6); Z.lor 128 (Z.land b 63)].

(** The code points of a string ([[]rune(s)], or ranging over [s]), for the
    strings made of one- and two-byte UTF-8 sequences; [None] on any other
    byte sequence, which [string_of_byte] never produces. *)
Fixpoint runes (s : gostring) : option (list Z) :=
  match s with
  | [] => Some []
  | c :: t =>
      if c <? 128 then option_map (cons c) (runes t)
      else
        match t with
        | c2 :: t' =>
            if (194 <=? c) && (c <=? 223) && (128 <=? c2) && (c2 <=? 191)
            then option_map
                   (cons (Z.lor (Z.shiftl (Z.land c 31) 6) (Z.land c2 63)))
                   (runes t')
            else None
        | [] => None
        end
  end.

(* ================================================================= *)
(** ** The 7-bit codec *)

(** [func from7Bit(b0 byte, b1 byte) byte]:
    [return (b0 & 0x7F) | ((b1 & 0x7F) << 7)]. *)
Definition from7Bit (b0 b1 : U8.t) : U8.t :=
  U8.or (U8.and b0 127) (U8.shl (U8.and b1 127) 7).

(** [func to7Bit(i byte) []byte]:
    [return []byte{i & 0x7f, (i >> 7) & 0x7f}]. *)
Definition to7Bit (i : U8.t) : list U8.t :=
  [U8.and i 127; U8.and (U8.shr i 7) 127].

(** [func intto7Bit(i int) []byte]:
    [return []byte{byte(i & 0x7f), byte((i >> 7) & 0x7f),
                   byte((i >> 14) & 0x7f)}]. *)
Definition intto7Bit (i : Int.t) : list U8.t :=
  [U8.of_int (Z.land i 127);
   U8.of_int (Z.land (Z.shiftr i 7) 127);
   U8.of_int (Z.land (Z.shiftr i 14) 127)].

(** How a run of the loop of [multibyteString] ends. *)
Inductive run (A : Type) : Type :=
| Done (a : A)          (* the function returns [a] *)
| IndexPanic            (* an index expression is out of range *)
| OutOfFuel.            (* the model's step budget is used up *)
Arguments Done {A} a.
Arguments IndexPanic {A}.
Arguments OutOfFuel {A}.

(** [if len(data)%2 != 0 { data = append(data, 0) }]. *)
Definition pad_even (data : list U8.t) : list U8.t :=
  if negb (Nat.eqb (Nat.modulo (length data) 2) 0) then data ++ [0] else data.

(** [for i := 0; i < len(data); i = i + 2 {
       str = str + string(from7Bit(data[i], data[i+1])) }]
    with the loop variable [i] and the accumulator [str] as arguments; one
    unit of fuel per test of the loop condition. *)
Fixpoint multibyteString_loop
    (fuel : nat) (data : list U8.t) (i : nat) (str : gostring) : run gostring :=
  match fuel with
  | O => OutOfFuel
  | S fuel' =>
      if Nat.ltb i (length data) then
        match nth_error data i, nth_error data (i + 1) with
        | Some b0, Some b1 =>
            multibyteString_loop fuel' data (i + 2)
              (str ++ string_of_byte (from7Bit b0 b1))
        | _, _ => IndexPanic
        end
      else Done str
  end.

(** [func multibyteString(data []byte) (str string)].  The loop condition is
    tested at most [len(data)/2 + 1] times, so [len(data) + 1] units of fuel
    are enough. *)
Definition multibyteString (data : list U8.t) : run gostring :=
  let data := pad_even data in
  multibyteString_loop (S (length data)) data 0%nat [].

(** *** Reference functions for the statements about the codec *)

(** The consecutive pairs of a sequence; a last byte without a partner is
    paired with [0]. *)
Fixpoint pairs (data : list U8.t) : list (U8.t * U8.t) :=
  match data with
  | [] => []
  | [b0] => [(b0, 0)]
  | b0 :: b1 :: rest => (b0, b1) :: pairs rest
  end.

(** The decoded byte of every pair. *)
Definition decoded (data : list U8.t) : list U8.t :=
  map (fun p => from7Bit (fst p) (snd p)) (pairs data).

(** Decoding a sequence and re-encoding each decoded character with
    [to7Bit]. *)
Definition reencode (data : list U8.t) : option (list U8.t) :=
  match multibyteString data with
  | Done s =>
      match runes s with
      | Some rs => Some (flat_map (fun r => to7Bit (U8.of_int r)) rs)
      | None => None
      end
  | _ => None
  end.

(** A pair of wire bytes as [to7Bit] writes them. *)
Definition canonical_pair (p : U8.t * U8.t) : bool :=
  (fst p <? 128) && (snd p <? 2).

(** What the round trip keeps of a sequence: seven bits of every first byte
    of a pair and one bit of every second. *)
Definition kept (data : list U8.t) : list U8.t :=
  flat_map (fun p => [Z.land (fst p) 127; Z.land (snd p) 1]) (pairs data).

(* ================================================================= *)
(** ** Package firmata, as far as goduino.go uses it *)

(** Modelled from the spec: the kinds of failure that the engine, which is
    in package [firmata], hands back: "OutOfRange, ModeMismatch,
    NotConnected, Timeout, TransportError", and the failure of a second
    connect. *)
Inductive ErrorKind : Type :=
| OutOfRange | ModeMismatch | NotConnected | HandshakeTimeout
| TransportError | AlreadyConnected.

(** A non-nil [error] value: one made here by [fmt.Errorf], or one handed
    back by the board. *)
Inductive error : Type :=
| Errorf (msg : string)
| BoardError (k : ErrorKind).

(** An [io.ReadWriteCloser]: the handle of an open byte stream. *)
Inductive ReadWriteCloser : Type := Handle (id : nat).

(** Modelled from the spec: [firmata.Pin], whose declaration is in package
    [firmata]: "Pin: identity = index; attributes = supported-modes set,
    current mode, current value".  goduino.go reads its field [Mode]. *)
Record Pin : Type := mkPin {
  SupportedModes : list Z;
  Mode : Z;
  Value : Z
}.

(** The pin mode constants [firmata.Input], [firmata.Output],
    [firmata.Analog], [firmata.Pwm], [firmata.Servo]; their values are fixed
    in package [firmata] and are parameters here. *)
Class Modes : Type := mkModes {
  Input : Z;
  Output : Z;
  Analog : Z;
  Pwm : Z;
  Servo : Z
}.

(** [type firmataBoard interface { ... }].  A method takes the state of the
    board and returns the state after the call with the [error] result. *)
Module Board.

Class firmataBoard (B : Type) : Type := {
  Connect : ReadWriteCloser -> B -> B * option error;
  Disconnect : B -> B * option error;
  Pins : B -> list Pin;
  AnalogWrite : Int.t -> Int.t -> B -> B * option error;
  SetPinMode : Int.t -> Int.t -> B -> B * option error;
  ReportAnalog : Int.t -> Int.t -> B -> B * option error;
  ReportDigital : Int.t -> Int.t -> B -> B * option error;
  DigitalWrite : Int.t -> Int.t -> B -> B * option error;
  I2cRead : Int.t -> Int.t -> B -> B * option error;
  I2cWrite : Int.t -> list U8.t -> B -> B * option error;
  I2cConfig : Int.t -> B -> B * option error;
  ServoConfig : Int.t -> Int.t -> Int.t -> B -> B * option error
}.

(** An implementation is looked up for a given type of boards only. *)
#[global] Hint Mode firmataBoard ! : typeclass_instances.

End Board.

(** [s[i]] on a slice, for an [int] index: [None] stands for the run-time
    panic "index out of range", raised when [i < 0] or [i >= len(s)]. *)
Definition index {A : Type} (s : list A) (i : Int.t) : option A :=
  if i <? 0 then None else nth_error s (Z.to_nat i).

(** [len(s)] as an [int]. *)
Definition len {A : Type} (s : list A) : Int.t := Z.of_nat (length s).

(** *** A board that records the calls made on it *)

(** One call of a method of [firmataBoard], with its arguments in the order
    of the call. *)
Inductive Call : Type :=
| ConnectCall (c : ReadWriteCloser)
| DisconnectCall
| AnalogWriteCall (pin value : Int.t)
| SetPinModeCall (pin mode : Int.t)
| ReportAnalogCall (pin state : Int.t)
| ReportDigitalCall (pin state : Int.t)
| DigitalWriteCall (pin value : Int.t)
| I2cReadCall (address numBytes : Int.t)
| I2cWriteCall (address : Int.t) (data : list U8.t)
| I2cConfigCall (delay : Int.t)
| ServoConfigCall (pin a2 a3 : Int.t).

(** A board together with the calls it has received, oldest first. *)
Definition Traced (B : Type) : Type := (B * list Call)%type.

(** Forwards a call to the board underneath and appends it to the record. *)
Definition traced {B : Type} (c : Call) (f : B -> B * option error)
    (tb : Traced B) : Traced B * option error :=
  let (b', e) := f (fst tb) in ((b', snd tb ++ [c]), e).

#[global] Instance Traced_board (B : Type) `{Board.firmataBoard B}
  : Board.firmataBoard (Traced B) := {|
  Board.Connect c := traced (ConnectCall c) (Board.Connect c);
  Board.Disconnect := traced DisconnectCall Board.Disconnect;
  Board.Pins tb := Board.Pins (fst tb);
  Board.AnalogWrite p v := traced (AnalogWriteCall p v) (Board.AnalogWrite p v);
  Board.SetPinMode p m := traced (SetPinModeCall p m) (Board.SetPinMode p m);
  Board.ReportAnalog p v :=
    traced (ReportAnalogCall p v) (Board.ReportAnalog p v);
  Board.ReportDigital p v :=
    traced (ReportDigitalCall p v) (Board.ReportDigital p v);
  Board.DigitalWrite p v :=
    traced (DigitalWriteCall p v) (Board.DigitalWrite p v);
  Board.I2cRead a n := traced (I2cReadCall a n) (Board.I2cRead a n);
  Board.I2cWrite a d := traced (I2cWriteCall a d) (Board.I2cWrite a d);
  Board.I2cConfig d := traced (I2cConfigCall d) (Board.I2cConfig d);
  Board.ServoConfig p x y :=
    traced (ServoConfigCall p x y) (Board.ServoConfig p x y)
|}.

(* ================================================================= *)
(** ** goduino.go: the Goduino client *)

(** [type Goduino struct].  The interface value [board] may be [nil]; the
    field [logger] holds, oldest first, the messages handed to
    [logger.Printf] (the logger's own prefix and time stamp are left out). *)
Record Goduino (B : Type) : Type := mkGoduino {
  name : string;
  port : string;
  board : option B;
  conn : option ReadWriteCloser;
  openSP : string -> ReadWriteCloser + error;
  logger : list string;
  verbose : bool
}.
Arguments mkGoduino {B}.
Arguments name {B}.
Arguments port {B}.
Arguments board {B}.
Arguments conn {B}.
Arguments openSP {B}.
Arguments logger {B}.
Arguments verbose {B}.

Definition set_board {B B' : Type} (ino : Goduino B) (b : option B')
  : Goduino B' :=
  mkGoduino (name ino) (port ino) b (conn ino) (openSP ino) (logger ino)
    (verbose ino).

Definition set_conn {B : Type} (ino : Goduino B) (c : option ReadWriteCloser)
  : Goduino B :=
  mkGoduino (name ino) (port ino) (board ino) c (openSP ino) (logger ino)
    (verbose ino).

Definition add_log {B : Type} (ino : Goduino B) (line : string) : Goduino B :=
  mkGoduino (name ino) (port ino) (board ino) (conn ino) (openSP ino)
    (logger ino ++ [line]) (verbose ino).

(** How a call of a method of [*Goduino] ends: it returns a value, or it
    panics at run time; either way it leaves a state of the receiver. *)
Inductive outcome (S A : Type) : Type :=
| Returns (a : A) (s : S)
| Panics (s : S).
Arguments Returns {S A} a s.
Arguments Panics {S A} s.

(** Computations on the receiver. *)
Definition M (S A : Type) : Type := S -> outcome S A.

Definition ret {S A : Type} (a : A) : M S A := fun s => Returns a s.

Definition bind {S A A' : Type} (m : M S A) (k : A -> M S A') : M S A' :=
  fun s =>
    match m s with
    | Returns a s' => k a s'
    | Panics s' => Panics s'
    end.

Definition panic {S A : Type} : M S A := fun s => Panics s.

Declare Scope go_scope.
Delimit Scope go_scope with go.
Notation "x <- m ;; k" := (bind m (fun x => k))
  (at level 61, m at next level, right associativity) : go_scope.
Notation "m ;; k" := (bind m (fun _ => k))
  (at level 61, right associativity) : go_scope.

(** [if err != nil { return err }], followed by [k]. *)
Definition or_return {S : Type} (err : option error)
    (k : M S (option error)) : M S (option error) :=
  match err with
  | Some e => ret (Some e)
  | None => k
  end.

(** Formatting verbs. *)
Definition crlf : string :=
  String (Ascii.ascii_of_nat 13) (String (Ascii.ascii_of_nat 10) EmptyString).

Definition lf : string := String (Ascii.ascii_of_nat 10) EmptyString.

(** [%d] (and [%v]) of an integer. *)
Definition fmt_d (i : Z) : string :=
  DecimalString.NilZero.string_of_int (Z.to_int i).

Section Client.

Context {modes : Modes} {B : Type} {firmata_board : Board.firmataBoard B}.

Local Open Scope go_scope.
Local Open Scope string_scope.

(** A call [ino.board.m(...)] of an interface method: a run-time panic (nil
    dereference) when [ino.board] is [nil]. *)
Definition on_board (m : B -> B * option error) : M (Goduino B) (option error) :=
  fun ino =>
    match board ino with
    | None => Panics ino
    | Some b => let (b', e) := m b in Returns e (set_board ino (Some b'))
    end.

(** [ino.board.Pins()]. *)
Definition board_Pins : M (Goduino B) (list Pin) :=
  fun ino =>
    match board ino with
    | None => Panics ino
    | Some b => Returns (Board.Pins b) ino
    end.

(** [ino.board.Pins()[pin]]. *)
Definition board_Pin (pin : Int.t) : M (Goduino B) Pin :=
  pins <- board_Pins ;;
  match index pins pin with
  | Some p => ret p
  | None => panic
  end.

(** [ino.logger.Printf(...)], with the formatted message. *)
Definition logger_Printf (msg : string) : M (Goduino B) unit :=
  fun ino => Returns tt (add_log ino msg).

(** [func (ino *Goduino) Connect() error]. *)
Definition Connect : M (Goduino B) (option error) :=
  fun ino =>
    match conn ino with
    | None =>
        match openSP ino (port ino) with
        | inr err => Returns (Some err) ino
        | inl sp => on_board (Board.Connect sp) (set_conn ino (Some sp))
        end
    | Some c => on_board (Board.Connect c) ino
    end.

(** [func (ino *Goduino) Disconnect() (err error)]. *)
Definition Disconnect : M (Goduino B) (option error) :=
  fun ino =>
    match board ino with
    | Some _ => on_board Board.Disconnect ino
    | None => Returns None ino
    end.

(** [func (ino *Goduino) ServoConfig(pin, min, max int) error]:
    [return ino.board.ServoConfig(pin, max, min)]. *)
Definition ServoConfig (pin min max : Int.t) : M (Goduino B) (option error) :=
  on_board (Board.ServoConfig pin max min).

(** [func (ino *Goduino) ServoWrite(pin int, angle byte) (err error)]. *)
Definition ServoWrite (pin : Int.t) (angle : U8.t)
  : M (Goduino B) (option error) :=
  let write :=
    logger_Printf ("ServoWrite(" ++ fmt_d pin ++ ", " ++ fmt_d angle ++ ")"
                   ++ crlf) ;;
    on_board (Board.AnalogWrite pin angle) in
  p <- board_Pin pin ;;
  if negb (Mode p =? Servo)%Z then
    err <- on_board (Board.SetPinMode pin Servo) ;;
    or_return err write
  else write.

(** [func (ino *Goduino) PwmWrite(pin int, level byte) (err error)]. *)
Definition PwmWrite (pin : Int.t) (level : U8.t)
  : M (Goduino B) (option error) :=
  let write :=
    logger_Printf ("PwmWrite(" ++ fmt_d pin ++ ", " ++ fmt_d level ++ ")"
                   ++ crlf) ;;
    on_board (Board.AnalogWrite pin level) in
  p <- board_Pin pin ;;
  if negb (Mode p =? Pwm)%Z then
    err <- on_board (Board.SetPinMode pin Pwm) ;;
    or_return err write
  else write.

(** [func (ino *Goduino) digitalPin(pin int) int]: [return pin + 14]. *)
Definition digitalPin (pin : Int.t) : Int.t := Int.add pin 14.

(** [func (m PinMode) String() string], on [type PinMode uint8]. *)
Definition PinMode_String (m : U8.t) : string :=
  if (m =? Input)%Z then "INPUT"
  else if (m =? Output)%Z then "OUTPUT"
  else if (m =? Analog)%Z then "ANALOG"
  else if (m =? Pwm)%Z then "PWM"
  else if (m =? Servo)%Z then "SERVO"
  else "UNKNOWN".

(** The test of [PinMode]:
    [uint8(pin) < 0 || pin > len(ino.board.Pins())]; the right operand is
    evaluated when the left one is false. *)
Definition invalid_pin (pin : Int.t) : M (Goduino B) bool :=
  if (U8.of_int pin <? 0)%Z then ret true
  else pins <- board_Pins ;; ret (pin >? len pins)%Z.

(** [func (ino *Goduino) PinMode(pin, mode int) error].  The two waits
    [<-time.After(10 * time.Millisecond)] change no state and are left
    out. *)
Definition PinMode (pin mode : Int.t) : M (Goduino B) (option error) :=
  let success (pin : Int.t) : M (Goduino B) (option error) :=
    logger_Printf ("pinMode(" ++ fmt_d pin ++ ", "
                   ++ PinMode_String (U8.of_int mode) ++ ")" ++ crlf) ;;
    ret None in
  invalid <- invalid_pin pin ;;
  if invalid then
    ret (Some (Errorf ("Invalid pin number " ++ fmt_d pin ++ lf)))
  else if (mode =? Input)%Z then
    err <- on_board (Board.SetPinMode pin mode) ;;
    or_return err (
      err <- on_board (Board.ReportDigital pin 1) ;;
      or_return err (success pin))
  else if (mode =? Analog)%Z then
    let pin := digitalPin pin in
    err <- on_board (Board.SetPinMode pin mode) ;;
    or_return err (
      err <- on_board (Board.ReportAnalog pin 1) ;;
      or_return err (success pin))
  else
    err <- on_board (Board.SetPinMode pin mode) ;;
    or_return err (success pin).

End Client.

(* ================================================================= *)
(** ** The engine behind the interface *)

(** The implementation of [firmataBoard] is package [firmata]'s client,
    which is not part of the files embedded above.  [Engine] follows the
    description of its state and of its operations; frames are not modelled
    below the level of the method calls. *)
Module Engine.

(** Modelled from the spec: the states of a Connection, "Disconnected,
    Connecting, AwaitingCapabilities, Ready". *)
Inductive ConnState : Type :=
| Disconnected | Connecting | AwaitingCapabilities | Ready.

(** Modelled from the spec: the engine owns one transport handle, the
    Listener Loop and the Pin Table.  [reply] is the pin table that the
    capability reply of the board at the other end describes, [None] when
    that board never answers. *)
Record t : Type := mk {
  state : ConnState;
  listening : bool;
  transport : option ReadWriteCloser;
  table : list Pin;
  reply : option (list Pin)
}.

(** Whether there is an active connection. *)
Definition is_ready (e : t) : bool :=
  match state e with Ready => true | _ => false end.

(** Membership in a supported-modes set. *)
Definition mem (x : Z) (l : list Z) : bool := existsb (Z.eqb x) l.

(** The table with entry [i] replaced; unchanged when there is none. *)
Fixpoint update {A : Type} (s : list A) (i : nat) (x : A) : list A :=
  match s, i with
  | [], _ => []
  | _ :: s', O => x :: s'
  | y :: s', S i' => y :: update s' i' x
  end.

Definition set_table (e : t) (tbl : list Pin) : t :=
  mk (state e) (listening e) (transport e) tbl (reply e).

(** Modelled from the spec: "NotConnected (operation attempted with no
    active connection)", "OutOfRange (pin/port index beyond the table size,
    checked before any byte leaves the process)"; [k] runs on the pin once
    both checks have passed. *)
Definition with_pin (pin : Int.t) (e : t)
    (k : Pin -> t * option error) : t * option error :=
  if is_ready e then
    match index (table e) pin with
    | Some p => k p
    | None => (e, Some (BoardError OutOfRange))
    end
  else (e, Some (BoardError NotConnected)).

(** Modelled from the spec: "connect(transport): fails with ConnectionError
    if a connection already exists; starts the Listener Loop; blocks until
    CapabilityReply is observed, populating the Pin Table; fails with
    Timeout if no reply arrives". *)
Definition Connect (c : ReadWriteCloser) (e : t) : t * option error :=
  match state e with
  | Disconnected =>
      match reply e with
      | Some tbl => (mk Ready true (Some c) tbl (reply e), None)
      | None =>
          (mk AwaitingCapabilities true (Some c) (table e) (reply e),
           Some (BoardError HandshakeTimeout))
      end
  | _ => (e, Some (BoardError AlreadyConnected))
  end.

(** Modelled from the spec: "disconnect(): stops the Listener Loop, releases
    the transport, transitions to Disconnected; idempotent: calling it twice
    is a no-op, not a failure"; "the whole table is discarded on
    disconnect". *)
Definition Disconnect (e : t) : t * option error :=
  match state e with
  | Disconnected => (e, None)
  | _ => (mk Disconnected false None [] (reply e), None)
  end.

Section Operations.

Context {modes : Modes}.

(** Modelled from the spec: "setPinMode(pin, mode): validates pin index and
    mode membership against the Pin Table, then sends the encoded command;
    updates the table's mode field optimistically on send". *)
Definition SetPinMode (pin mode : Int.t) (e : t) : t * option error :=
  with_pin pin e (fun p =>
    if mem mode (SupportedModes p) then
      (set_table e
         (update (table e) (Z.to_nat pin)
            (mkPin (SupportedModes p) mode (Value p))),
       None)
    else (e, Some (BoardError ModeMismatch))).

(** Modelled from the spec: "analogWrite / servoWrite / pwmWrite: validate
    the pin is currently in a mode compatible with the requested write,
    encode, send"; the written value becomes the pin's current value. *)
Definition AnalogWrite (pin value : Int.t) (e : t) : t * option error :=
  with_pin pin e (fun p =>
    if (Mode p =? Pwm) || (Mode p =? Servo) then
      (set_table e
         (update (table e) (Z.to_nat pin)
            (mkPin (SupportedModes p) (Mode p) value)),
       None)
    else (e, Some (BoardError ModeMismatch))).

(** Modelled from the spec: "digitalWrite: validate the pin is currently in
    a mode compatible with the requested write". *)
Definition DigitalWrite (pin value : Int.t) (e : t) : t * option error :=
  with_pin pin e (fun p =>
    if Mode p =? Output then
      (set_table e
         (update (table e) (Z.to_nat pin)
            (mkPin (SupportedModes p) (Mode p) value)),
       None)
    else (e, Some (BoardError ModeMismatch))).

(** Modelled from the spec: reporting toggles, servo configuration and the
    I2C operations are "encode-and-send, no synchronous reply wait"; they
    leave the table as it is. *)
Definition send_for_pin (pin : Int.t) (e : t) : t * option error :=
  with_pin pin e (fun _ => (e, None)).

(** The same for an operation that names no pin. *)
Definition send (e : t) : t * option error :=
  if is_ready e then (e, None) else (e, Some (BoardError NotConnected)).

#[global] Instance board : Board.firmataBoard t := {|
  Board.Connect := Connect;
  Board.Disconnect := Disconnect;
  Board.Pins := table;
  Board.AnalogWrite := AnalogWrite;
  Board.SetPinMode := SetPinMode;
  Board.ReportAnalog pin _ := send_for_pin pin;
  Board.ReportDigital pin _ := send_for_pin pin;
  Board.DigitalWrite := DigitalWrite;
  Board.I2cRead _ _ := send;
  Board.I2cWrite _ _ := send;
  Board.I2cConfig _ := send;
  Board.ServoConfig pin _ _ := send_for_pin pin
|}.

End Operations.

End Engine.

(* ================================================================= *)
(** ** The servo-config command of the engine *)

Module Wire.






End Wire.








(* ================================================================= *)
(** ** Concrete boards for the examples *)

(** The mode numbers of the Firmata protocol. *)
Definition firmata_modes : Modes := mkModes 0 1 2 3 4.

(** A pin that supports every mode and is in mode [m]. *)
Definition pin_in (m : Z) : Pin := mkPin [0; 1; 2; 3; 4] m 0.

(** A connected engine with twenty pins, all inputs. *)
Definition uno : Engine.t :=
  Engine.mk Engine.Ready true (Some (Handle 0)) (repeat (pin_in 0) 20)
    (Some (repeat (pin_in 0) 20)).

(** A client of a board [b], with nothing logged yet. *)
Definition client {B : Type} (b : B) : Goduino B :=
  mkGoduino "ino" "/dev/ttyACM0" (Some b) (Some (Handle 0))
    (fun _ => inl (Handle 0)) [] true.

(** The same client with its board recording the calls from now on. *)
Definition observe {B : Type} (ino : Goduino B) : Goduino (Traced B) :=
  set_board ino (option_map (fun b => (b, [])) (board ino)).

(** The calls a client's board has recorded. *)
Definition calls {B : Type} (ino : Goduino (Traced B)) : list Call :=
  match board ino with
  | Some tb => snd tb
  | None => []
  end.

(** The state a call of a method leaves. *)
Definition final {S A : Type} (o : outcome S A) : S :=
  match o with
  | Returns _ s => s
  | Panics s => s
  end.

(** The value a call returns, if it returns. *)
Definition returned {S A : Type} (o : outcome S A) : option A :=
  match o with
  | Returns a _ => Some a
  | Panics _ => None
  end.

(** The board a call leaves, without the record of calls. *)
Definition board_after {B A : Type} (o : outcome (Goduino (Traced B)) A)
  : option B :=
  option_map fst (board (final o)).

(** *** Readings of the specification to be compared with the code *)

Section Readings.

Context {modes : Modes} {B : Type} {firmata_board : Board.firmataBoard B}.

(** "ServoWrite(p, angle) fails with a ModeMismatch error and sends no write
    command for that pin." *)
Definition ServoWrite_refuses (ino : Goduino B) (pin : Int.t) (angle : U8.t)
  : Prop :=
  let o := ServoWrite pin angle (observe ino) in
  returned o = Some (Some (BoardError ModeMismatch)) /\
  forall v, ~ In (AnalogWriteCall pin v) (calls (final o)).


(** "PinMode(pin, mode) returns an OutOfRange-style error before invoking
    SetPinMode or any report-enable command." *)
Definition PinMode_refuses (ino : Goduino B) (pin mode : Int.t) : Prop :=
  let o := PinMode pin mode (observe ino) in
  (exists e, returned o = Some (Some e)) /\ calls (final o) = [].

End Readings.

(** "Decoding it with multibyteString and then re-encoding each decoded
    character through to7Bit pairs reproduces the original byte sequence
    exactly." *)
Definition roundtrips (data : list U8.t) : Prop := reencode data = Some data.

(** "The output contains one decoded byte per consecutive input pair." *)
Definition one_byte_per_pair (data : list U8.t) : Prop :=
  multibyteString data = Done (decoded data).

(** "decode7BitPair(b0, b1) == b0 | (b1 << 7)", the value of the two 7-bit
    bytes (0 to 16383). *)
Definition from7Bit_joins (b0 b1 : U8.t) : Prop :=
  from7Bit b0 b1 = Z.lor b0 (Z.shiftl b1 7).

(* ================================================================= *)
(** ** goduino.go: the constructor and the getters *)

(** A variadic argument of [New], as the type switch of [New] tells the
    arguments apart: a [string], a value that implements
    [io.ReadWriteCloser], or anything else ([nil] included). *)
Inductive arg : Type :=
| StringArg (s : string)
| ConnArg (c : ReadWriteCloser)
| OtherArg.

Definition set_port {B : Type} (ino : Goduino B) (p : string) : Goduino B :=
  mkGoduino (name ino) p (board ino) (conn ino) (openSP ino) (logger ino)
    (verbose ino).

(** [func (ino *Goduino) Port() string]. *)
Definition Port {B : Type} (ino : Goduino B) : string := port ino.

(** [func (ino *Goduino) Name() string]. *)
Definition Name {B : Type} (ino : Goduino B) : string := name ino.

Section Constructor.

Context {B : Type}.

(** [firmata.New()], which is in package [firmata], and
    [serial.OpenPort(&serial.Config{Name: name, Baud: baud})], which is in
    the serial port library. *)
Variable firmata_New : B.
Variable serial_OpenPort : string -> Z -> ReadWriteCloser + error.

(** The body of [for _, arg := range args { switch arg.(type) { ... } }]. *)
Definition New_arg (goduino : Goduino B) (a : arg) : Goduino B :=
  match a with
  | StringArg s => set_port goduino s
  | ConnArg c => set_conn goduino (Some c)
  | OtherArg => goduino
  end.

(** [func New(name string, args ...interface{}) *Goduino]. *)
Definition New (name : string) (args : list arg) : Goduino B :=
  fold_left New_arg args
    (mkGoduino name "" (Some firmata_New) None
       (fun port => serial_OpenPort port 57600) [] true).

End Constructor.

(** *** Reference functions for the statements about the client *)

(** The last [string] among the arguments. *)
Fixpoint last_string (args : list arg) : option string :=
  match args with
  | [] => None
  | a :: rest =>
      match last_string rest, a with
      | Some s, _ => Some s
      | None, StringArg s => Some s
      | None, _ => None
      end
  end.

(** The last [io.ReadWriteCloser] among the arguments. *)
Fixpoint last_conn (args : list arg) : option ReadWriteCloser :=
  match args with
  | [] => None
  | a :: rest =>
      match last_conn rest, a with
      | Some c, _ => Some c
      | None, ConnArg c => Some c
      | None, _ => None
      end
  end.

(** The message [ServoWrite] hands to the logger. *)
Definition ServoWrite_line (pin : Int.t) (angle : U8.t) : string :=
  ("ServoWrite(" ++ fmt_d pin ++ ", " ++ fmt_d angle ++ ")" ++ crlf)%string.

(** The message [PwmWrite] hands to the logger. *)
Definition PwmWrite_line (pin : Int.t) (level : U8.t) : string :=
  ("PwmWrite(" ++ fmt_d pin ++ ", " ++ fmt_d level ++ ")" ++ crlf)%string.

(** The message [PinMode] hands to the logger, for the pin number [pin] it
    ends with. *)
Definition PinMode_line {modes : Modes} (pin mode : Int.t) : string :=
  ("pinMode(" ++ fmt_d pin ++ ", " ++ PinMode_String (U8.of_int mode) ++ ")"
   ++ crlf)%string.

(** The pin number [PinMode] uses in its calls of the board. *)
Definition PinMode_index {modes : Modes} (pin mode : Int.t) : Int.t :=
  if mode =? Input then pin
  else if mode =? Analog then digitalPin pin
  else pin.

(** A connected engine with twenty input pins that also accept the mode
    number 256. *)
Definition uno_wide : Engine.t :=
  Engine.mk Engine.Ready true (Some (Handle 0))
    (repeat (mkPin [0; 1; 2; 3; 4; 256] 0 0) 20) None.

(** A connected engine with twenty pins, all in mode [m]. *)
Definition uno_in (m : Z) : Engine.t :=
  Engine.mk Engine.Ready true (Some (Handle 0)) (repeat (pin_in m) 20) None.

(** A client without a connection, whose port cannot be opened. *)
Definition unplugged {B : Type} (b : option B) : Goduino B :=
  mkGoduino "ino" "/dev/ttyACM0" b None
    (fun _ => inr (Errorf "no such file or directory")) [] true.


(* ================================================================= *)
(** * Properties of the codec *)

Section Exhaustion.

(** A boolean property checked on the 256 values holds of every byte. *)
Lemma U8_forall (P : Z -> bool) :
  forallb P U8.all = true -> forall b, U8.in_range b -> P b = true.
Proof.
  intros Hall b [Hlo Hhi].
  rewrite forallb_forall in Hall. apply Hall.
  unfold U8.all. rewrite <- (Z2Nat.id b) by assumption.
  apply in_map, in_seq. lia.
Qed.

Lemma U8_forall2 (P : Z -> Z -> bool) :
  forallb (fun a => forallb (P a) U8.all) U8.all = true ->
  forall a b, U8.in_range a -> U8.in_range b -> P a b = true.
Proof.
  intros Hall a b Ha Hb.
  apply (U8_forall (P a)); [| assumption].
  apply (U8_forall (fun a => forallb (P a) U8.all)); assumption.
Qed.

End Exhaustion.

(** [exhaust P a] and [exhaust2 P a b] add [P a = true] and [P a b = true]
    to the context, by evaluation of [P] on all bytes. *)
Ltac exhaust P a :=
  let H := fresh "X" in
  assert (H : P a = true)
    by (apply (U8_forall P); [vm_compute; reflexivity | assumption]);
  cbv beta in H.

Ltac exhaust2 P a b :=
  let H := fresh "X" in
  assert (H : P a b = true)
    by (apply (U8_forall2 P); [vm_compute; reflexivity | assumption ..]);
  cbv beta in H.

Lemma from7Bit_in_range b0 b1 :
  U8.in_range b0 -> U8.in_range b1 -> U8.in_range (from7Bit b0 b1).
Proof.
  intros H0 H1.
  exhaust2 (fun a b => (0 <=? from7Bit a b) && (from7Bit a b <? 256)) b0 b1.
  unfold U8.in_range. lia.
Qed.

(** [from7Bit] keeps seven bits of its first argument and one of its
    second. *)
Lemma from7Bit_value b0 b1 :
  U8.in_range b0 -> U8.in_range b1 ->
  from7Bit b0 b1 = b0 mod 128 + 128 * (b1 mod 2).
Proof.
  intros H0 H1.
  exhaust2 (fun a b => from7Bit a b =? a mod 128 + 128 * (b mod 2)) b0 b1.
  lia.
Qed.

Lemma to7Bit_from7Bit b0 b1 :
  U8.in_range b0 -> U8.in_range b1 ->
  to7Bit (U8.of_int (from7Bit b0 b1)) = [Z.land b0 127; Z.land b1 1].
Proof.
  intros H0 H1.
  exhaust2 (fun a b =>
    match to7Bit (U8.of_int (from7Bit a b)) with
    | [lo; hi] => (lo =? Z.land a 127) && (hi =? Z.land b 1)
    | _ => false
    end) b0 b1.
  unfold to7Bit in *. f_equal; [| f_equal]; lia.
Qed.

Lemma land_127_fix b : U8.in_range b -> (Z.land b 127 = b <-> b < 128).
Proof.
  intros Hb.
  exhaust (fun a => Bool.eqb (Z.land a 127 =? a) (a <? 128)) b.
  apply Bool.eqb_prop in X. split; intros; lia.
Qed.

Lemma land_1_fix b : U8.in_range b -> (Z.land b 1 = b <-> b < 2).
Proof.
  intros Hb.
  exhaust (fun a => Bool.eqb (Z.land a 1 =? a) (a <? 2)) b.
  apply Bool.eqb_prop in X. split; intros; lia.
Qed.

(** Ranging over [string(b)] gives back the code point [b]. *)
Lemma runes_string_of_byte b t :
  U8.in_range b ->
  runes (string_of_byte b ++ t) = option_map (cons b) (runes t).
Proof.
  intros Hb. unfold string_of_byte.
  destruct (b <? 128) eqn:E.
  - simpl. rewrite E. reflexivity.
  - exhaust (fun a =>
      (a <? 128) ||
      let c := Z.lor 192 (Z.shiftr a 6) in
      let c2 := Z.lor 128 (Z.land a 63) in
      negb (c <? 128) && (194 <=? c) && (c <=? 223) && (128 <=? c2)
      && (c2 <=? 191)
      && (Z.lor (Z.shiftl (Z.land c 31) 6) (Z.land c2 63) =? a)) b.
    rewrite E in X. cbn [orb] in X. cbv zeta in X.
    repeat (apply andb_prop in X; destruct X as [X ?]).
    apply negb_true_iff in X.
    cbn [app runes]. rewrite X.
    replace ((194 <=? Z.lor 192 (Z.shiftr b 6))
             && (Z.lor 192 (Z.shiftr b 6) <=? 223)
             && (128 <=? Z.lor 128 (Z.land b 63))
             && (Z.lor 128 (Z.land b 63) <=? 191)) with true
      by (symmetry; repeat (apply andb_true_intro; split); assumption).
    match goal with H : (_ =? b) = true |- _ => apply Z.eqb_eq in H; rewrite H end.
    reflexivity.
Qed.

Lemma runes_flat_map bs :
  Forall U8.in_range bs -> runes (flat_map string_of_byte bs) = Some bs.
Proof.
  induction 1 as [| b bs Hb _ IH]; [reflexivity |].
  simpl. rewrite runes_string_of_byte by assumption. rewrite IH. reflexivity.
Qed.

(** Induction over a sequence two elements at a time. *)
Lemma pair_ind {A : Type} (P : list A -> Prop) :
  P [] -> (forall a, P [a]) -> (forall a b l, P l -> P (a :: b :: l)) ->
  forall l, P l.
Proof.
  intros H0 H1 H2.
  assert (H : forall l, P l /\ forall a, P (a :: l)).
  { induction l as [| x l [IHl IHl']]; split; auto. }
  intros l. apply H.
Qed.

Lemma pairs_app_zero data :
  Nat.even (length data) = false -> pairs (data ++ [0]) = pairs data.
Proof.
  induction data as [| a | a b l IH] using pair_ind; intros Hodd.
  - discriminate.
  - reflexivity.
  - cbn [app pairs]. rewrite IH; [reflexivity | exact Hodd].
Qed.

Lemma pad_even_spec data :
  pad_even data = if Nat.even (length data) then data else data ++ [0].
Proof.
  unfold pad_even.
  destruct (Nat.even (length data)) eqn:E.
  - apply Nat.even_spec in E. destruct E as [k Ek]. rewrite Ek.
    rewrite Nat.mul_comm, Nat.Div0.mod_mul. reflexivity.
  - assert (O : Nat.odd (length data) = true)
      by (rewrite <- Nat.negb_even, E; reflexivity).
    apply Nat.odd_spec in O. destruct O as [k Ek]. rewrite Ek.
    replace (2 * k + 1)%nat with (1 + k * 2)%nat by lia.
    rewrite Nat.Div0.mod_add. reflexivity.
Qed.

Lemma pad_even_even data : Nat.even (length (pad_even data)) = true.
Proof.
  rewrite pad_even_spec. destruct (Nat.even (length data)) eqn:E; [exact E |].
  rewrite length_app. simpl. rewrite Nat.add_1_r, Nat.even_succ.
  rewrite <- Nat.negb_even, E. reflexivity.
Qed.

Lemma pairs_pad_even data : pairs (pad_even data) = pairs data.
Proof.
  rewrite pad_even_spec. destruct (Nat.even (length data)) eqn:E;
    [reflexivity | apply pairs_app_zero, E].
Qed.

(** The loop, started at the end of [pre] on a sequence with an even number
    of bytes left, appends the decoding of what is left and returns. *)
Lemma multibyteString_loop_spec fuel :
  forall rest pre str,
    Nat.even (length rest) = true ->
    (length rest < fuel)%nat ->
    multibyteString_loop fuel (pre ++ rest) (length pre) str =
    Done (str ++ flat_map string_of_byte (decoded rest)).
Proof.
  induction fuel as [| fuel IH]; intros rest pre str Heven Hfuel; [lia |].
  destruct rest as [| b0 [| b1 rest]].
  - cbn [multibyteString_loop]. rewrite app_nil_r.
    rewrite Nat.ltb_irrefl. cbn. rewrite app_nil_r. reflexivity.
  - discriminate.
  - cbn [multibyteString_loop].
    replace (length pre <? length (pre ++ b0 :: b1 :: rest))%nat with true
      by (symmetry; apply Nat.ltb_lt; rewrite length_app; simpl; lia).
    rewrite nth_error_app2 by lia. rewrite Nat.sub_diag. cbn [nth_error].
    rewrite nth_error_app2 by lia.
    replace (length pre + 1 - length pre)%nat with 1%nat by lia.
    cbn [nth_error].
    replace (pre ++ b0 :: b1 :: rest) with ((pre ++ [b0; b1]) ++ rest)
      by (rewrite <- app_assoc; reflexivity).
    replace (length pre + 2)%nat with (length (pre ++ [b0; b1]))
      by (rewrite length_app; reflexivity).
    rewrite IH; [| exact Heven | simpl in Hfuel; lia].
    unfold decoded. cbn [pairs map flat_map fst snd].
    rewrite <- app_assoc. reflexivity.
Qed.

(** [multibyteString] returns, on every input, the concatenation of
    [string(from7Bit(b0, b1))] over the pairs of the input. *)
Lemma multibyteString_spec data :
  multibyteString data = Done (flat_map string_of_byte (decoded data)).
Proof.
  unfold multibyteString. cbv zeta.
  rewrite (multibyteString_loop_spec _ (pad_even data) [] []).
  - unfold decoded. rewrite pairs_pad_even. reflexivity.
  - apply pad_even_even.
  - lia.
Qed.

Lemma pairs_in_range data :
  Forall U8.in_range data ->
  Forall (fun p => U8.in_range (fst p) /\ U8.in_range (snd p)) (pairs data).
Proof.
  induction data as [| a | a b l IH] using pair_ind; intros H.
  - constructor.
  - inversion H; subst. cbn [pairs]. constructor; [| constructor].
    split; [assumption | unfold U8.in_range; simpl; lia].
  - inversion H as [| ? ? Ha H']; subst. inversion H' as [| ? ? Hb Hl]; subst.
    cbn [pairs]. constructor; [split; assumption | apply IH, Hl].
Qed.

Lemma decoded_in_range data :
  Forall U8.in_range data -> Forall U8.in_range (decoded data).
Proof.
  intros H. apply pairs_in_range in H. unfold decoded.
  induction H as [| p ps [Hf Hs] _ IH]; simpl; constructor;
    [apply from7Bit_in_range; assumption | exact IH].
Qed.

Lemma length_pairs data :
  length (pairs data) = Nat.div2 (S (length data)).
Proof.
  induction data as [| a | a b l IH] using pair_ind; [reflexivity .. |].
  cbn [pairs length]. rewrite IH. reflexivity.
Qed.

(** The round trip returns what [kept] describes. *)
Lemma reencode_kept data :
  Forall U8.in_range data -> reencode data = Some (kept data).
Proof.
  intros H. unfold reencode. rewrite multibyteString_spec.
  rewrite runes_flat_map by (apply decoded_in_range, H).
  f_equal. unfold decoded, kept.
  apply pairs_in_range in H.
  induction H as [| p ps [Hf Hs] _ IH]; [reflexivity |].
  cbn [map flat_map]. rewrite IH.
  rewrite to7Bit_from7Bit by assumption. reflexivity.
Qed.

Lemma kept_fixpoint data :
  Forall U8.in_range data -> Nat.even (length data) = true ->
  (kept data = data <-> forallb canonical_pair (pairs data) = true).
Proof.
  induction data as [| a | a b l IH] using pair_ind; intros H Heven.
  - split; reflexivity.
  - discriminate.
  - inversion H as [| ? ? Ha H']; subst. inversion H' as [| ? ? Hb Hl]; subst.
    specialize (IH Hl Heven).
    unfold kept in *. cbn [pairs flat_map forallb fst snd app].
    unfold canonical_pair at 1. cbn [fst snd].
    pose proof (land_127_fix a Ha) as Fa. pose proof (land_1_fix b Hb) as Fb.
    rewrite !andb_true_iff, !Z.ltb_lt. split.
    + intros E. injection E as Ea Eb El. tauto.
    + intros [[La Lb] Hl']. f_equal; [tauto |]. f_equal; tauto.
Qed.

(** The bytes 0 and 2 are both below 128; [from7Bit 0 2] is 0, and
    [0 | (2 << 7)] is 256. *)
Lemma from7Bit_joins_counterexample :
  U8.in_range 0 /\ U8.in_range 2 /\ 0 < 128 /\ 2 < 128 /\
  from7Bit 0 2 = 0 /\ Z.lor 0 (Z.shiftl 2 7) = 256 /\
  ~ from7Bit_joins 0 2.
Proof.
  unfold U8.in_range, from7Bit_joins.
  repeat split; try lia; try reflexivity.
  vm_compute. discriminate.
Qed.

(** C5, amended.  For bytes [b0], [b1] below 128, [from7Bit b0 b1] is the low
    eight bits of [b0 | (b1 << 7)], and it is [b0 | (b1 << 7)] itself exactly
    when [b1 < 2]; and for every byte [v], [to7Bit v] has two elements
    [lo], [hi] with [from7Bit lo hi = v], where [hi] is 0 when [v <= 127]. *)
Theorem from7Bit_low_eight_bits :
  forall b0 b1 v : U8.t,
    U8.in_range b0 -> U8.in_range b1 -> U8.in_range v ->
    (b0 < 128 -> b1 < 128 ->
     from7Bit b0 b1 = Z.lor b0 (Z.shiftl b1 7) mod 256 /\
     (from7Bit_joins b0 b1 <-> b1 < 2)) /\
    exists lo hi,
      to7Bit v = [lo; hi] /\ from7Bit lo hi = v /\ (v <= 127 -> hi = 0).
Proof.
  intros b0 b1 v H0 H1 Hv. split.
  - intros L0 L1. unfold from7Bit_joins.
    exhaust2 (fun a b =>
      negb ((a <? 128) && (b <? 128))
      || ((from7Bit a b =? Z.lor a (Z.shiftl b 7) mod 256)
          && Bool.eqb (from7Bit a b =? Z.lor a (Z.shiftl b 7)) (b <? 2)))
      b0 b1.
    apply orb_prop in X. destruct X as [X | X].
    + apply negb_true_iff, andb_false_iff in X. lia.
    + apply andb_prop in X. destruct X as [X1 X2].
      apply Bool.eqb_prop in X2. split; [lia |].
      split; intros; lia.
  - exhaust (fun a =>
      match to7Bit a with
      | [lo; hi] => (from7Bit lo hi =? a) && ((127 <? a) || (hi =? 0))
      | _ => false
      end) v.
    unfold to7Bit in *. eexists. eexists. split; [reflexivity |].
    apply andb_prop in X. destruct X as [X1 X2]. split; [lia |].
    intros Hle. apply orb_prop in X2. lia.
Qed.

Lemma from7Bit_low_eight_bits_witness :
  (from7Bit 5 3 = Z.lor 5 (Z.shiftl 3 7) mod 256 /\
   (from7Bit_joins 5 3 <-> 3 < 2)) /\
  exists lo hi,
    to7Bit 200 = [lo; hi] /\ from7Bit lo hi = 200 /\ (200 <= 127 -> hi = 0).
Proof.
  destruct (from7Bit_low_eight_bits 5 3 200) as [H1 H2];
    [unfold U8.in_range; lia .. |].
  split; [apply H1; lia | exact H2].
Defined.

Lemma seven_bits x : 0 <= Z.land x 127 < 128.
Proof.
  change 127 with (Z.ones 7). rewrite Z.land_ones by lia.
  apply Z.mod_pos_bound. lia.
Qed.

Lemma testbit_seven_bits x n :
  0 <= n -> Z.testbit (Z.land x 127) n = Z.testbit x n && (n <? 7).
Proof.
  intros Hn. rewrite Z.land_spec. change 127 with (Z.ones 7).
  rewrite Z.testbit_ones_nonneg by lia. reflexivity.
Qed.

(** C7.  For [0 <= v < 2^21], [intto7Bit v] is three bytes below 128 whose
    recombination [b0 | (b1 << 7) | (b2 << 14)] is [v]. *)
Theorem intto7Bit_recombines :
  forall v : Int.t,
    0 <= v < 2 ^ 21 ->
    exists b0 b1 b2,
      intto7Bit v = [b0; b1; b2] /\
      0 <= b0 < 128 /\ 0 <= b1 < 128 /\ 0 <= b2 < 128 /\
      Z.lor (Z.lor b0 (Z.shiftl b1 7)) (Z.shiftl b2 14) = v.
Proof.
  intros v Hv. unfold intto7Bit, U8.of_int.
  pose proof (seven_bits v) as R0.
  pose proof (seven_bits (Z.shiftr v 7)) as R1.
  pose proof (seven_bits (Z.shiftr v 14)) as R2.
  rewrite !Z.mod_small by lia.
  do 3 eexists. split; [reflexivity |]. repeat (split; [lia |]).
  apply Z.bits_inj'. intros n Hn.
  rewrite !Z.lor_spec, !Z.shiftl_spec by lia.
  rewrite testbit_seven_bits by lia.
  destruct (Z.ltb_spec n 7) as [L7 | G7].
  - rewrite andb_true_r.
    rewrite (Z.testbit_neg_r _ (n - 7)), (Z.testbit_neg_r _ (n - 14)) by lia.
    rewrite !orb_false_r. reflexivity.
  - rewrite andb_false_r, orb_false_l.
    rewrite testbit_seven_bits, Z.shiftr_spec by lia.
    replace (n - 7 + 7) with n by lia.
    destruct (Z.ltb_spec (n - 7) 7) as [L14 | G14].
    + rewrite andb_true_r, (Z.testbit_neg_r _ (n - 14)) by lia.
      apply orb_false_r.
    + rewrite andb_false_r, orb_false_l.
      rewrite testbit_seven_bits, Z.shiftr_spec by lia.
      replace (n - 14 + 14) with n by lia.
      destruct (Z.ltb_spec (n - 14) 7) as [L21 | G21].
      * apply andb_true_r.
      * rewrite andb_false_r. symmetry.
        rewrite <- (Z.mod_small v (2 ^ 21)) by lia.
        apply Z.mod_pow2_bits_high. lia.
Qed.

Lemma intto7Bit_recombines_witness :
  exists b0 b1 b2,
    intto7Bit 1000000 = [b0; b1; b2] /\
    0 <= b0 < 128 /\ 0 <= b1 < 128 /\ 0 <= b2 < 128 /\
    Z.lor (Z.lor b0 (Z.shiftl b1 7)) (Z.shiftl b2 14) = 1000000.
Proof. apply (intto7Bit_recombines 1000000). lia. Defined.

(** The bytes [0x00, 0x02] are both 7-bit wire bytes; they decode to the
    character 0, which [to7Bit] writes as [0x00, 0x00]. *)
Lemma roundtrips_counterexample :
  Forall U8.in_range [0; 2] /\ Nat.even (length [0; 2]) = true /\
  ~ roundtrips [0; 2].
Proof.
  split; [| split].
  - repeat constructor; discriminate.
  - reflexivity.
  - unfold roundtrips. vm_compute. discriminate.
Qed.

(** C4, amended.  For every even-length byte sequence, decoding with
    [multibyteString] and re-encoding each decoded character with [to7Bit]
    yields the sequence with the first byte of every pair reduced to its low
    seven bits and the second to its lowest bit; this is the original
    sequence exactly when every pair has its first byte below 128 and its
    second below 2. *)
Theorem reencode_roundtrip :
  forall data : list U8.t,
    Forall U8.in_range data -> Nat.even (length data) = true ->
    reencode data = Some (kept data) /\
    (roundtrips data <-> forallb canonical_pair (pairs data) = true).
Proof.
  intros data Hr He.
  pose proof (reencode_kept data Hr) as K. split; [exact K |].
  unfold roundtrips. rewrite K, <- (kept_fixpoint data Hr He).
  split; [intros E; injection E; trivial | intros ->; reflexivity].
Qed.

Lemma reencode_roundtrip_witness :
  reencode [72; 0; 105; 1] = Some (kept [72; 0; 105; 1]) /\
  (roundtrips [72; 0; 105; 1]
   <-> forallb canonical_pair (pairs [72; 0; 105; 1]) = true).
Proof.
  apply (reencode_roundtrip [72; 0; 105; 1]).
  - repeat constructor; discriminate.
  - reflexivity.
Defined.

(** The pair [0x00, 0x01] decodes to the byte 0x80, and [string(0x80)] is
    the two bytes 0xC2 0x80. *)
Lemma one_byte_per_pair_counterexample :
  Forall U8.in_range [0; 1] /\
  multibyteString [0; 1] = Done [194; 128] /\
  decoded [0; 1] = [128] /\
  ~ one_byte_per_pair [0; 1].
Proof.
  split; [| split; [| split]].
  - repeat constructor; discriminate.
  - reflexivity.
  - reflexivity.
  - unfold one_byte_per_pair. vm_compute. discriminate.
Qed.

(** C6, amended.  [multibyteString] returns on every byte sequence; on one of
    odd length it returns what it returns on the sequence with a zero byte
    appended; and the string it returns holds one decoded character per
    consecutive pair of the input (the code point [from7Bit b0 b1], in
    UTF-8: one byte when it is below 128, two bytes otherwise). *)
Theorem multibyteString_total :
  forall data : list U8.t,
    Forall U8.in_range data ->
    exists s,
      multibyteString data = Done s /\
      (Nat.even (length data) = false ->
       multibyteString (data ++ [0]) = Done s) /\
      s = flat_map string_of_byte (decoded data) /\
      runes s = Some (decoded data) /\
      length (decoded data) = Nat.div2 (S (length data)).
Proof.
  intros data Hr. exists (flat_map string_of_byte (decoded data)).
  split; [apply multibyteString_spec |]. split; [| split; [| split]].
  - intros Hodd. rewrite multibyteString_spec. unfold decoded.
    rewrite pairs_app_zero by exact Hodd. reflexivity.
  - reflexivity.
  - apply runes_flat_map, decoded_in_range, Hr.
  - unfold decoded. rewrite length_map. apply length_pairs.
Qed.

Lemma multibyteString_total_witness :
  exists s,
    multibyteString [72; 0; 0; 1; 33] = Done s /\
    (Nat.even (length [72; 0; 0; 1; 33]) = false ->
     multibyteString ([72; 0; 0; 1; 33] ++ [0]) = Done s) /\
    s = flat_map string_of_byte (decoded [72; 0; 0; 1; 33]) /\
    runes s = Some (decoded [72; 0; 0; 1; 33]) /\
    length (decoded [72; 0; 0; 1; 33])
    = Nat.div2 (S (length [72; 0; 0; 1; 33])).
Proof.
  apply (multibyteString_total [72; 0; 0; 1; 33]).
  repeat constructor; discriminate.
Defined.

(* ================================================================= *)
(** * Properties of the client *)

Section ClientProperties.

Context (modes : Modes) (B : Type) (firmata_board : Board.firmataBoard B).

(** Unfolds a method of the client on a receiver given field by field. *)
Ltac run_client :=
  cbv beta iota zeta delta
    [ServoWrite PwmWrite PinMode ServoConfig Disconnect invalid_pin
     board_Pin board_Pins on_board logger_Printf or_return bind ret panic
     observe set_board add_log calls final returned board_after board
     name port conn openSP logger verbose option_map fst snd
     Board.Pins Board.SetPinMode Board.AnalogWrite Board.ReportAnalog
     Board.ReportDigital Board.ServoConfig Board.Disconnect
     Traced_board traced app];
  fold (@Board.Pins B firmata_board)
       (@Board.SetPinMode B firmata_board)
       (@Board.AnalogWrite B firmata_board)
       (@Board.ReportAnalog B firmata_board)
       (@Board.ReportDigital B firmata_board)
       (@Board.ServoConfig B firmata_board)
       (@Board.Disconnect B firmata_board).

Lemma index_in_bounds {A : Type} (s : list A) (i : Int.t) :
  0 <= i < len s <-> index s i <> None.
Proof.
  unfold index, len. destruct (Z.ltb_spec i 0) as [L | G].
  - split; [lia | intros H; contradiction H; reflexivity].
  - rewrite nth_error_Some. lia.
Qed.

Lemma U8_of_int_nonneg (i : Z) : (U8.of_int i <? 0) = false.
Proof.
  apply Z.ltb_ge. unfold U8.of_int. apply Z.mod_pos_bound. lia.
Qed.


(** [ServoConfig(pin, min, max)] sends one command to the board,
    [ServoConfig(pin, max, min)]: the caller's [max] is the second argument
    of that call and the caller's [min] the third; it returns what the call
    returns. *)
Lemma ServoConfig_forwards_max_first :
  forall (ino : Goduino B) (b : B) (pin min max : Int.t),
    board ino = Some b ->
    let o := ServoConfig pin min max (observe ino) in
    calls (final o) = [ServoConfigCall pin max min] /\
    returned o = Some (snd (Board.ServoConfig pin max min b)) /\
    board_after o = Some (fst (Board.ServoConfig pin max min b)).
Proof.
  intros [n p bo c o l v] b pin min max Hb. simpl in Hb. subst bo.
  run_client.
  destruct (Board.ServoConfig pin max min b) as [b1 e]. repeat split.
Qed.

(** C1, amended.  For a pin of the table whose mode is not Servo,
    [ServoWrite(p, angle)] first calls [SetPinMode(p, Servo)]; when that
    call fails it returns its error and writes nothing; otherwise it calls
    [AnalogWrite(p, angle)] and returns what that call returns. *)
Theorem ServoWrite_sets_mode_first :
  forall (ino : Goduino B) (b : B) (pin : Int.t) (angle : U8.t) (p : Pin),
    board ino = Some b ->
    index (Board.Pins b) pin = Some p ->
    Mode p <> Servo ->
    let o := ServoWrite pin angle (observe ino) in
    match Board.SetPinMode pin Servo b with
    | (b1, Some e) =>
        returned o = Some (Some e) /\
        calls (final o) = [SetPinModeCall pin Servo] /\
        board_after o = Some b1
    | (b1, None) =>
        returned o = Some (snd (Board.AnalogWrite pin angle b1)) /\
        calls (final o) = [SetPinModeCall pin Servo; AnalogWriteCall pin angle] /\
        board_after o = Some (fst (Board.AnalogWrite pin angle b1))
    end.
Proof.
  intros [n pt bo c op l v] b pin angle p Hb Hp Hm. simpl in Hb. subst bo.
  run_client. rewrite Hp.
  replace (Mode p =? Servo) with false by (symmetry; apply Z.eqb_neq, Hm).
  cbn [negb].
  destruct (Board.SetPinMode pin Servo b) as [b1 [e |]].
  - repeat split.
  - destruct (Board.AnalogWrite pin angle b1) as [b2 r]. repeat split.
Qed.

(** The same for [PwmWrite] and the mode Pwm. *)
Lemma PwmWrite_sets_mode_first :
  forall (ino : Goduino B) (b : B) (pin : Int.t) (level : U8.t) (p : Pin),
    board ino = Some b ->
    index (Board.Pins b) pin = Some p ->
    Mode p <> Pwm ->
    let o := PwmWrite pin level (observe ino) in
    match Board.SetPinMode pin Pwm b with
    | (b1, Some e) =>
        returned o = Some (Some e) /\
        calls (final o) = [SetPinModeCall pin Pwm]
    | (b1, None) =>
        returned o = Some (snd (Board.AnalogWrite pin level b1)) /\
        calls (final o) = [SetPinModeCall pin Pwm; AnalogWriteCall pin level]
    end.
Proof.
  intros [n pt bo c op l v] b pin level p Hb Hp Hm. simpl in Hb. subst bo.
  run_client. rewrite Hp.
  replace (Mode p =? Pwm) with false by (symmetry; apply Z.eqb_neq, Hm).
  cbn [negb].
  destruct (Board.SetPinMode pin Pwm b) as [b1 [e |]].
  - repeat split.
  - destruct (Board.AnalogWrite pin level b1) as [b2 r]. repeat split.
Qed.

(** C10.  [ServoWrite] and [PwmWrite] index the pin table without a test of
    the index: [Pins()[pin]] is in bounds exactly when
    [0 <= pin < len(Pins())]; for any other index both methods panic, with
    no call made on the board, and return no error value; for an index in
    bounds they return. *)
Theorem write_index_unchecked :
  forall (ino : Goduino B) (b : B) (pin : Int.t) (v : U8.t),
    board ino = Some b ->
    (0 <= pin < len (Board.Pins b) <-> index (Board.Pins b) pin <> None) /\
    (~ 0 <= pin < len (Board.Pins b) ->
     ServoWrite pin v (observe ino) = Panics (observe ino) /\
     PwmWrite pin v (observe ino) = Panics (observe ino)) /\
    (0 <= pin < len (Board.Pins b) ->
     (exists r s, ServoWrite pin v (observe ino) = Returns r s) /\
     (exists r s, PwmWrite pin v (observe ino) = Returns r s)).
Proof.
  intros [n pt bo c op l w] b pin v Hb. simpl in Hb. subst bo.
  pose proof (index_in_bounds (Board.Pins b) pin) as Hin.
  split; [exact Hin |]. split.
  - intros Hout.
    assert (E : index (Board.Pins b) pin = None).
    { destruct (index (Board.Pins b) pin) eqn:E; [| reflexivity].
      exfalso. apply Hout, Hin. discriminate. }
    run_client. rewrite E. split; reflexivity.
  - intros Hok. apply Hin in Hok.
    destruct (index (Board.Pins b) pin) as [p |] eqn:E; [| contradiction].
    run_client. rewrite E. split.
    + destruct (negb (Mode p =? Servo)).
      * destruct (Board.SetPinMode pin Servo b) as [b1 [e |]];
          [do 2 eexists; reflexivity |].
        destruct (Board.AnalogWrite pin v b1) as [b2 r].
        do 2 eexists; reflexivity.
      * destruct (Board.AnalogWrite pin v b) as [b2 r].
        do 2 eexists; reflexivity.
    + destruct (negb (Mode p =? Pwm)).
      * destruct (Board.SetPinMode pin Pwm b) as [b1 [e |]];
          [do 2 eexists; reflexivity |].
        destruct (Board.AnalogWrite pin v b1) as [b2 r].
        do 2 eexists; reflexivity.
      * destruct (Board.AnalogWrite pin v b) as [b2 r].
        do 2 eexists; reflexivity.
Qed.

Lemma wrap_in_range (z : Z) : Int.in_range z -> Int.wrap z = z.
Proof.
  unfold Int.in_range, Int.min_int, Int.max_int, Int.wrap. intros H.
  rewrite Z.mod_small; lia.
Qed.

(** For an index above the length of the table, [PinMode] returns the error
    "Invalid pin number" and makes no call on the board. *)
Lemma PinMode_above_length :
  forall (ino : Goduino B) (b : B) (pin mode : Int.t),
    board ino = Some b ->
    len (Board.Pins b) < pin ->
    PinMode pin mode (observe ino)
    = Returns (Some (Errorf ("Invalid pin number " ++ fmt_d pin ++ lf)))
        (observe ino).
Proof.
  intros [n pt bo c op l w] b pin mode Hb Hgt. simpl in Hb. subst bo.
  run_client. rewrite U8_of_int_nonneg.
  replace (pin >? len (Board.Pins b)) with true
    by (symmetry; rewrite Z.gtb_ltb; apply Z.ltb_lt, Hgt).
  reflexivity.
Qed.

(** For an index that the test lets through, the first thing [PinMode] does
    is to call [SetPinMode]. *)
Lemma PinMode_calls_SetPinMode :
  forall (ino : Goduino B) (b : B) (pin mode : Int.t),
    board ino = Some b ->
    pin <= len (Board.Pins b) ->
    exists q rest,
      calls (final (PinMode pin mode (observe ino)))
      = SetPinModeCall q mode :: rest.
Proof.
  intros [n pt bo c op l w] b pin mode Hb Hle. simpl in Hb. subst bo.
  run_client. rewrite U8_of_int_nonneg.
  replace (pin >? len (Board.Pins b)) with false
    by (symmetry; rewrite Z.gtb_ltb; apply Z.ltb_ge, Hle).
  destruct (mode =? Input); [| destruct (mode =? Analog)].
  - destruct (Board.SetPinMode pin mode b) as [b1 [e |]];
      [do 2 eexists; reflexivity |].
    destruct (Board.ReportDigital pin 1 b1) as [b2 [e |]];
      do 2 eexists; reflexivity.
  - destruct (Board.SetPinMode (digitalPin pin) mode b) as [b1 [e |]];
      [do 2 eexists; reflexivity |].
    destruct (Board.ReportAnalog (digitalPin pin) 1 b1) as [b2 [e |]];
      do 2 eexists; reflexivity.
  - destruct (Board.SetPinMode pin mode b) as [b1 [e |]];
      do 2 eexists; reflexivity.
Qed.

(** C3, on the code.  For a pin index outside the table that is negative or
    equal to the number of pins, [PinMode] does not return before the board
    is called: [SetPinMode] is invoked. *)
Theorem PinMode_out_of_range_reaches_board :
  forall (ino : Goduino B) (b : B) (pin mode : Int.t),
    board ino = Some b ->
    pin < 0 \/ pin = len (Board.Pins b) ->
    ~ PinMode_refuses ino pin mode /\
    exists q rest,
      calls (final (PinMode pin mode (observe ino)))
      = SetPinModeCall q mode :: rest.
Proof.
  intros ino b pin mode Hb Hout.
  assert (Hle : pin <= len (Board.Pins b)) by (unfold len in *; lia).
  destruct (PinMode_calls_SetPinMode ino b pin mode Hb Hle) as (q & rest & E).
  split; [| exists q, rest; exact E].
  intros [_ Hnone]. cbv zeta in Hnone. rewrite E in Hnone. discriminate.
Qed.


(** [Disconnect] hands every call on to the board when there is one, and
    returns [nil] when there is none; the client keeps no state of its own
    about the connection. *)
Lemma Disconnect_forwards :
  forall (ino : Goduino B),
    Disconnect ino =
    match board ino with
    | Some b =>
        Returns (snd (Board.Disconnect b))
          (set_board ino (Some (fst (Board.Disconnect b))))
    | None => Returns None ino
    end.
Proof.
  intros ino. unfold Disconnect, on_board.
  destruct (board ino) as [b |]; [| reflexivity].
  destruct (Board.Disconnect b); reflexivity.
Qed.

End ClientProperties.

Section EngineProperties.

Context (modes : Modes).

Lemma Engine_Disconnect_idempotent (e : Engine.t) :
  snd (Engine.Disconnect e) = None /\
  Engine.Disconnect (fst (Engine.Disconnect e))
  = (fst (Engine.Disconnect e), None).
Proof.
  unfold Engine.Disconnect. destruct e as [st li tr tb rp].
  destruct st; split; reflexivity.
Qed.

(** C8.  On the engine, [Disconnect] of the client returns [nil], and a
    second [Disconnect] after it returns [nil] again and leaves the client
    and its board as the first call left them. *)
Theorem Disconnect_twice_is_noop :
  forall ino : Goduino Engine.t,
    exists ino1,
      Disconnect ino = Returns None ino1 /\
      Disconnect ino1 = Returns None ino1.
Proof.
  intros ino. rewrite Disconnect_forwards.
  destruct ino as [n pt [e |] c op l w]; cbn [board].
  - destruct (Engine_Disconnect_idempotent e) as [E1 E2].
    eexists. split.
    + change (@Board.Disconnect Engine.t Engine.board) with Engine.Disconnect.
      rewrite E1. reflexivity.
    + rewrite Disconnect_forwards. cbn [board set_board].
      change (@Board.Disconnect Engine.t Engine.board) with Engine.Disconnect.
      rewrite E2. reflexivity.
  - eexists. split; [reflexivity |]. rewrite Disconnect_forwards. reflexivity.
Qed.

End EngineProperties.

Section ServoConfigCommand.

Context (B : Type) (firmata_board : Board.firmataBoard B).



End ServoConfigCommand.

(* ================================================================= *)
(** * The client on a board of twenty pins *)

Section Examples.

#[local] Existing Instance firmata_modes.

(** Pin 5 of [uno] is an input; [ServoWrite 5 90] switches it to Servo,
    writes the angle and returns [nil]. *)
Lemma ServoWrite_refuses_counterexample :
  (exists p, index (Board.Pins uno) 5 = Some p /\ Mode p <> Servo) /\
  returned (ServoWrite 5 90 (observe (client uno))) = Some None /\
  calls (final (ServoWrite 5 90 (observe (client uno))))
  = [SetPinModeCall 5 Servo; AnalogWriteCall 5 90] /\
  ~ ServoWrite_refuses (client uno) 5 90.
Proof.
  split; [| split; [| split]].
  - exists (pin_in 0). split; [reflexivity | discriminate].
  - reflexivity.
  - reflexivity.
  - intros [H _]. vm_compute in H. discriminate.
Qed.

Lemma ServoWrite_sets_mode_first_witness :
  returned (ServoWrite 5 90 (observe (client uno))) = Some None /\
  calls (final (ServoWrite 5 90 (observe (client uno))))
  = [SetPinModeCall 5 Servo; AnalogWriteCall 5 90] /\
  option_map Board.Pins (board_after (ServoWrite 5 90 (observe (client uno))))
  = Some (repeat (pin_in 0) 5 ++ mkPin [0; 1; 2; 3; 4] 4 90
          :: repeat (pin_in 0) 14).
Proof.
  pose proof (ServoWrite_sets_mode_first firmata_modes Engine.t _
                (client uno) uno 5 90 (pin_in 0))
    as H.
  specialize (H eq_refl eq_refl).
  assert (Hm : Mode (pin_in 0) <> Servo) by (simpl; lia).
  specialize (H Hm). cbv zeta in H.
  destruct H as (H1 & H2 & H3).
  split; [exact H1 | split; [exact H2 |]].
  rewrite H3. reflexivity.
Defined.



Lemma ServoConfig_forwards_max_first_witness :
  calls (final (ServoConfig 9 544 2400 (observe (client uno))))
  = [ServoConfigCall 9 2400 544] /\
  returned (ServoConfig 9 544 2400 (observe (client uno))) = Some None /\
  board_after (ServoConfig 9 544 2400 (observe (client uno))) = Some uno.
Proof.
  exact (ServoConfig_forwards_max_first Engine.t _
           (client uno) uno 9 544 2400 eq_refl).
Defined.

(** [uno] has pins 0 to 19; [PinMode 20 Output] and [PinMode (-1) Output]
    both reach [SetPinMode]. *)
Lemma PinMode_out_of_range_reaches_board_witness :
  (~ PinMode_refuses (client uno) 20 Output /\
   exists q rest,
     calls (final (PinMode 20 Output (observe (client uno))))
     = SetPinModeCall q Output :: rest) /\
  (~ PinMode_refuses (client uno) (-1) Output /\
   exists q rest,
     calls (final (PinMode (-1) Output (observe (client uno))))
     = SetPinModeCall q Output :: rest).
Proof.
  split.
  - apply (PinMode_out_of_range_reaches_board firmata_modes Engine.t _
             (client uno) uno 20 Output);
      [reflexivity | right; reflexivity].
  - apply (PinMode_out_of_range_reaches_board firmata_modes Engine.t _
             (client uno) uno (-1) Output);
      [reflexivity | left; lia].
Defined.

(** What the calls of the witness above are. *)
Lemma PinMode_at_length :
  calls (final (PinMode 20 Output (observe (client uno))))
  = [SetPinModeCall 20 Output] /\
  calls (final (PinMode (-1) Output (observe (client uno))))
  = [SetPinModeCall (-1) Output] /\
  PinMode_refuses (client uno) 21 Output.
Proof.
  split; [reflexivity | split; [reflexivity |]].
  split; [eexists |]; reflexivity.
Qed.


Lemma write_index_unchecked_witness :
  ServoWrite 20 90 (observe (client uno)) = Panics (observe (client uno)) /\
  PwmWrite (-1) 90 (observe (client uno)) = Panics (observe (client uno)) /\
  exists r s, ServoWrite 19 90 (observe (client uno)) = Returns r s.
Proof.
  split; [| split].
  - apply (write_index_unchecked firmata_modes Engine.t _
             (client uno) uno 20 90 eq_refl).
    unfold len; simpl; lia.
  - apply (write_index_unchecked firmata_modes Engine.t _
             (client uno) uno (-1) 90 eq_refl).
    unfold len; simpl; lia.
  - apply (write_index_unchecked firmata_modes Engine.t _
             (client uno) uno 19 90 eq_refl).
    unfold len; simpl; lia.
Defined.

End Examples.

(* ================================================================= *)
(** * Further properties of the codec *)

(** X1.  [from7Bit] returns a byte made of the low seven bits of its first
    argument and, as bit 7, the lowest bit of its second argument; the other
    bits of both arguments have no effect. *)
Theorem from7Bit_bits :
  forall b0 b1 : U8.t,
    U8.in_range b0 -> U8.in_range b1 ->
    from7Bit b0 b1 = b0 mod 128 + 128 * (b1 mod 2) /\
    U8.in_range (from7Bit b0 b1) /\
    from7Bit b0 b1 = from7Bit (b0 mod 128) (b1 mod 2).
Proof.
  intros b0 b1 H0 H1.
  exhaust2 (fun a b =>
    (from7Bit a b =? a mod 128 + 128 * (b mod 2))
    && (0 <=? from7Bit a b) && (from7Bit a b <? 256)
    && (from7Bit a b =? from7Bit (a mod 128) (b mod 2))) b0 b1.
  repeat (apply andb_prop in X; destruct X as [X ?]).
  unfold U8.in_range. repeat split; lia.
Qed.

Lemma from7Bit_bits_witness :
  from7Bit 200 6 = 200 mod 128 + 128 * (6 mod 2) /\
  U8.in_range (from7Bit 200 6) /\
  from7Bit 200 6 = from7Bit (200 mod 128) (6 mod 2).
Proof.
  apply (from7Bit_bits 200 6); unfold U8.in_range; lia.
Defined.

(** X2.  For every byte [v], [to7Bit v] is the pair of [v mod 128] and
    [v / 128]; the second element is 0 or 1, and both are 7-bit values. *)
Theorem to7Bit_value :
  forall v : U8.t,
    U8.in_range v ->
    to7Bit v = [v mod 128; v / 128] /\ 0 <= v / 128 <= 1.
Proof.
  intros v Hv.
  exhaust (fun a =>
    match to7Bit a with
    | [lo; hi] => (lo =? a mod 128) && (hi =? a / 128) && (0 <=? a / 128)
                  && (a / 128 <=? 1)
    | _ => false
    end) v.
  unfold to7Bit in *.
  repeat (apply andb_prop in X; destruct X as [X ?]).
  split; [f_equal; [| f_equal]; lia | lia].
Qed.

Lemma to7Bit_value_witness :
  to7Bit 200 = [200 mod 128; 200 / 128] /\ 0 <= 200 / 128 <= 1.
Proof. apply (to7Bit_value 200). unfold U8.in_range. lia. Defined.

(** X3.  On every integer, negative ones included, [intto7Bit] returns three
    bytes below 128, and they recombine to the low 21 bits of the argument:
    the bits from bit 21 up are dropped. *)
Theorem intto7Bit_low_21_bits :
  forall v : Int.t,
    exists b0 b1 b2,
      intto7Bit v = [b0; b1; b2] /\
      0 <= b0 < 128 /\ 0 <= b1 < 128 /\ 0 <= b2 < 128 /\
      Z.lor (Z.lor b0 (Z.shiftl b1 7)) (Z.shiftl b2 14) = v mod 2 ^ 21.
Proof.
  intros v. unfold intto7Bit, U8.of_int.
  pose proof (seven_bits v) as R0.
  pose proof (seven_bits (Z.shiftr v 7)) as R1.
  pose proof (seven_bits (Z.shiftr v 14)) as R2.
  rewrite !Z.mod_small by lia.
  do 3 eexists. split; [reflexivity |]. repeat (split; [lia |]).
  apply Z.bits_inj'. intros n Hn.
  rewrite !Z.lor_spec, !Z.shiftl_spec by lia.
  rewrite testbit_seven_bits by lia.
  destruct (Z.ltb_spec n 7) as [L7 | G7].
  - rewrite andb_true_r.
    rewrite (Z.testbit_neg_r _ (n - 7)), (Z.testbit_neg_r _ (n - 14)) by lia.
    rewrite !orb_false_r. symmetry. apply Z.mod_pow2_bits_low. lia.
  - rewrite andb_false_r, orb_false_l.
    rewrite testbit_seven_bits, Z.shiftr_spec by lia.
    replace (n - 7 + 7) with n by lia.
    destruct (Z.ltb_spec (n - 7) 7) as [L14 | G14].
    + rewrite andb_true_r, (Z.testbit_neg_r _ (n - 14)) by lia.
      rewrite orb_false_r. symmetry. apply Z.mod_pow2_bits_low. lia.
    + rewrite andb_false_r, orb_false_l.
      rewrite testbit_seven_bits, Z.shiftr_spec by lia.
      replace (n - 14 + 14) with n by lia.
      destruct (Z.ltb_spec (n - 14) 7) as [L21 | G21].
      * rewrite andb_true_r. symmetry. apply Z.mod_pow2_bits_low. lia.
      * rewrite andb_false_r. symmetry. apply Z.mod_pow2_bits_high. lia.
Qed.

(** X4.  On a byte, [intto7Bit] returns the two bytes of [to7Bit] followed
    by a zero byte. *)
Theorem intto7Bit_of_byte :
  forall v : U8.t, U8.in_range v -> intto7Bit v = to7Bit v ++ [0].
Proof.
  intros v Hv.
  exhaust (fun a =>
    match intto7Bit a, to7Bit a with
    | [x0; x1; x2], [y0; y1] => (x0 =? y0) && (x1 =? y1) && (x2 =? 0)
    | _, _ => false
    end) v.
  unfold intto7Bit, to7Bit in *.
  repeat (apply andb_prop in X; destruct X as [X ?]).
  cbn [app]. f_equal; [| f_equal; [| f_equal]]; lia.
Qed.

Lemma intto7Bit_of_byte_witness : intto7Bit 200 = to7Bit 200 ++ [0].
Proof. apply (intto7Bit_of_byte 200). unfold U8.in_range. lia. Defined.

Lemma pairs_app (a b : list U8.t) :
  Nat.even (length a) = true -> pairs (a ++ b) = pairs a ++ pairs b.
Proof.
  induction a as [| x | x y l IH] using pair_ind; intros He.
  - reflexivity.
  - discriminate.
  - cbn [app pairs]. rewrite IH by exact He. reflexivity.
Qed.

(** X5.  Decoding distributes over concatenation when the first part has an
    even number of bytes: the string for [a ++ b] is the string for [a]
    followed by the string for [b]. *)
Theorem multibyteString_app :
  forall a b : list U8.t,
    Nat.even (length a) = true ->
    exists sa sb,
      multibyteString a = Done sa /\
      multibyteString b = Done sb /\
      multibyteString (a ++ b) = Done (sa ++ sb).
Proof.
  intros a b He.
  exists (flat_map string_of_byte (decoded a)),
         (flat_map string_of_byte (decoded b)).
  rewrite !multibyteString_spec. repeat split.
  unfold decoded. rewrite pairs_app by exact He.
  rewrite map_app, flat_map_app. reflexivity.
Qed.

Lemma multibyteString_app_witness :
  exists sa sb,
    multibyteString [72; 0; 0; 1] = Done sa /\
    multibyteString [33] = Done sb /\
    multibyteString ([72; 0; 0; 1] ++ [33]) = Done (sa ++ sb).
Proof. apply (multibyteString_app [72; 0; 0; 1] [33]). reflexivity. Defined.

Lemma pairs_to7Bit (bs : list U8.t) :
  pairs (flat_map to7Bit bs)
  = map (fun v => (U8.and v 127, U8.and (U8.shr v 7) 127)) bs.
Proof.
  induction bs as [| v bs IH]; [reflexivity |].
  cbn [flat_map to7Bit app pairs map]. rewrite IH. reflexivity.
Qed.

(** X6.  Encoding then decoding is exact: for every sequence of bytes, the
    [to7Bit] pairs of its elements, put end to end, are decoded by
    [multibyteString] to the string whose characters are those bytes. *)
Theorem multibyteString_of_to7Bit :
  forall bs : list U8.t,
    Forall U8.in_range bs ->
    multibyteString (flat_map to7Bit bs) = Done (flat_map string_of_byte bs) /\
    runes (flat_map string_of_byte bs) = Some bs.
Proof.
  intros bs Hr. split; [| apply runes_flat_map, Hr].
  rewrite multibyteString_spec. f_equal. f_equal.
  unfold decoded. rewrite pairs_to7Bit, map_map. cbn [fst snd].
  induction Hr as [| v bs Hv _ IH]; [reflexivity |].
  cbn [map]. rewrite IH. f_equal.
  exhaust (fun a =>
    from7Bit (U8.and a 127) (U8.and (U8.shr a 7) 127) =? a) v.
  lia.
Qed.

Lemma multibyteString_of_to7Bit_witness :
  multibyteString (flat_map to7Bit [72; 200; 0])
  = Done (flat_map string_of_byte [72; 200; 0]) /\
  runes (flat_map string_of_byte [72; 200; 0]) = Some [72; 200; 0].
Proof.
  apply (multibyteString_of_to7Bit [72; 200; 0]).
  repeat constructor; discriminate.
Defined.

Lemma length_string_of_byte (b : U8.t) :
  (1 <= length (string_of_byte b) <= 2)%nat.
Proof. unfold string_of_byte. destruct (b <? 128); simpl; lia. Qed.

Lemma length_flat_map_string_of_byte (bs : list U8.t) :
  (length bs <= length (flat_map string_of_byte bs) <= 2 * length bs)%nat.
Proof.
  induction bs as [| b bs IH]; [simpl; lia |].
  cbn [flat_map]. rewrite length_app. cbn [length].
  pose proof (length_string_of_byte b). lia.
Qed.

(** X7.  The string [multibyteString] returns for an input of [n] bytes has
    at least [(n + 1) / 2] and at most twice [(n + 1) / 2] bytes; for the
    empty input it is the empty string. *)
Theorem multibyteString_length :
  forall data : list U8.t,
    exists s,
      multibyteString data = Done s /\
      (Nat.div2 (S (length data)) <= length s
       <= 2 * Nat.div2 (S (length data)))%nat /\
      (data = [] -> s = []).
Proof.
  intros data. exists (flat_map string_of_byte (decoded data)).
  split; [apply multibyteString_spec |]. split.
  - rewrite <- length_pairs.
    replace (length (pairs data)) with (length (decoded data))
      by (unfold decoded; apply length_map).
    apply length_flat_map_string_of_byte.
  - intros ->. reflexivity.
Qed.

(** X8.  When the second byte of every pair of the input is even (its lowest
    bit is clear), the returned string has exactly one byte per pair: the
    low seven bits of the first byte of the pair. *)
Theorem multibyteString_seven_bit :
  forall data : list U8.t,
    Forall U8.in_range data ->
    forallb (fun p => Z.even (snd p)) (pairs data) = true ->
    multibyteString data = Done (map (fun p => fst p mod 128) (pairs data)).
Proof.
  intros data Hr He. rewrite multibyteString_spec. f_equal.
  unfold decoded. apply pairs_in_range in Hr.
  induction Hr as [| p ps [Hf Hs] _ IH]; [reflexivity |].
  cbn [forallb] in He. apply andb_prop in He. destruct He as [He1 He2].
  cbn [map flat_map]. rewrite IH by exact He2.
  destruct p as [b0 b1]. cbn [fst snd] in *.
  exhaust2 (fun a b =>
    negb (Z.even b)
    || match string_of_byte (from7Bit a b) with
       | [c] => c =? a mod 128
       | _ => false
       end) b0 b1.
  rewrite He1 in X. cbn [negb orb] in X.
  destruct (string_of_byte (from7Bit b0 b1)) as [| c [| ? ?]];
    try discriminate.
  apply Z.eqb_eq in X. subst c. reflexivity.
Qed.

Lemma multibyteString_seven_bit_witness :
  multibyteString [72; 0; 233; 2; 33]
  = Done (map (fun p => fst p mod 128) (pairs [72; 0; 233; 2; 33])).
Proof.
  apply (multibyteString_seven_bit [72; 0; 233; 2; 33]).
  - repeat constructor; discriminate.
  - reflexivity.
Defined.

(* ================================================================= *)
(** * Further properties of the client *)

Section ClientFurther.

Context (modes : Modes) (B : Type) (firmata_board : Board.firmataBoard B).

(** Unfolds a method of the client on a receiver given field by field. *)
Ltac run_method :=
  cbv beta iota zeta delta
    [ServoWrite PwmWrite PinMode ServoConfig Disconnect Connect invalid_pin
     board_Pin board_Pins on_board logger_Printf or_return bind ret panic
     observe set_board set_conn add_log calls final returned board_after
     board name port conn openSP logger verbose option_map fst snd
     Board.Pins Board.SetPinMode Board.AnalogWrite Board.ReportAnalog
     Board.ReportDigital Board.ServoConfig Board.Disconnect Board.Connect
     Traced_board traced app PinMode_line PinMode_index ServoWrite_line
     PwmWrite_line];
  fold (@Board.Pins B firmata_board)
       (@Board.SetPinMode B firmata_board)
       (@Board.AnalogWrite B firmata_board)
       (@Board.ReportAnalog B firmata_board)
       (@Board.ReportDigital B firmata_board)
       (@Board.ServoConfig B firmata_board)
       (@Board.Disconnect B firmata_board)
       (@Board.Connect B firmata_board).

(** X9.  For a pin of the table that is already in mode Servo, [ServoWrite]
    reads [Pins()] and then sends one command to the board,
    [AnalogWrite(pin, angle)], without [SetPinMode]; it returns what
    [AnalogWrite] returns. *)
Theorem ServoWrite_in_servo_mode :
  forall (ino : Goduino B) (b : B) (pin : Int.t) (angle : U8.t) (p : Pin),
    board ino = Some b ->
    index (Board.Pins b) pin = Some p ->
    Mode p = Servo ->
    let o := ServoWrite pin angle (observe ino) in
    calls (final o) = [AnalogWriteCall pin angle] /\
    returned o = Some (snd (Board.AnalogWrite pin angle b)) /\
    board_after o = Some (fst (Board.AnalogWrite pin angle b)).
Proof.
  intros [n pt bo c op l v] b pin angle p Hb Hp Hm. simpl in Hb. subst bo.
  run_method. rewrite Hp, Hm, Z.eqb_refl. cbn [negb].
  destruct (Board.AnalogWrite pin angle b) as [b2 r]. repeat split.
Qed.

(** X10.  [PwmWrite] on a pin of the table: when the pin is in mode Pwm it
    only calls [AnalogWrite(pin, level)]; otherwise it first calls
    [SetPinMode(pin, Pwm)], returns that call's error without writing when
    it fails, and calls [AnalogWrite(pin, level)] when it succeeds. *)
Theorem PwmWrite_calls :
  forall (ino : Goduino B) (b : B) (pin : Int.t) (level : U8.t) (p : Pin),
    board ino = Some b ->
    index (Board.Pins b) pin = Some p ->
    let o := PwmWrite pin level (observe ino) in
    if Mode p =? Pwm then
      calls (final o) = [AnalogWriteCall pin level] /\
      returned o = Some (snd (Board.AnalogWrite pin level b))
    else
      match Board.SetPinMode pin Pwm b with
      | (_, Some e) =>
          calls (final o) = [SetPinModeCall pin Pwm] /\
          returned o = Some (Some e)
      | (b1, None) =>
          calls (final o) = [SetPinModeCall pin Pwm; AnalogWriteCall pin level]
          /\ returned o = Some (snd (Board.AnalogWrite pin level b1))
      end.
Proof.
  intros [n pt bo c op l v] b pin level p Hb Hp. simpl in Hb. subst bo.
  run_method. rewrite Hp.
  destruct (Mode p =? Pwm); cbn [negb].
  - destruct (Board.AnalogWrite pin level b) as [b2 r]. split; reflexivity.
  - destruct (Board.SetPinMode pin Pwm b) as [b1 [e |]];
      [split; reflexivity |].
    destruct (Board.AnalogWrite pin level b1) as [b2 r]. split; reflexivity.
Qed.


(** X12.  For every index greater than the number of pins, [PinMode]
    returns the error "Invalid pin number <pin>" after the test, which reads
    [Pins()]: no command is sent to the board, nothing is logged and the
    client is left as it was. *)
Theorem PinMode_rejects_above_length :
  forall (ino : Goduino B) (b : B) (pin mode : Int.t),
    board ino = Some b ->
    len (Board.Pins b) < pin ->
    PinMode pin mode (observe ino)
    = Returns (Some (Errorf ("Invalid pin number " ++ fmt_d pin ++ lf)))
        (observe ino) /\
    PinMode_refuses ino pin mode.
Proof.
  intros ino b pin mode Hb Hgt.
  pose proof (PinMode_above_length modes B firmata_board ino b pin mode
                Hb Hgt) as E.
  split; [exact E |].
  unfold PinMode_refuses. cbv zeta. rewrite E. cbn [returned final].
  split; [eexists; reflexivity |].
  unfold calls, observe, set_board. cbn [board]. rewrite Hb. reflexivity.
Qed.

(** The result of [PinMode] and what it logs, on a board whose methods
    return. *)
Lemma PinMode_logs_on_success :
  forall (ino : Goduino B) (b : B) (pin mode : Int.t),
    board ino = Some b ->
    let o := PinMode pin mode (observe ino) in
    exists r,
      returned o = Some r /\
      logger (final o) =
      match r with
      | None => logger ino ++ [PinMode_line (PinMode_index pin mode) mode]
      | Some _ => logger ino
      end.
Proof.
  intros [n pt bo c op l x] b pin mode Hb. simpl in Hb. subst bo.
  run_method. rewrite U8_of_int_nonneg.
  destruct (pin >? len (Board.Pins b)); [eexists; split; reflexivity |].
  destruct (mode =? Input); [| destruct (mode =? Analog)].
  - destruct (Board.SetPinMode pin mode b) as [b1 [e |]];
      [eexists; split; reflexivity |].
    destruct (Board.ReportDigital pin 1 b1) as [b2 [e |]];
      eexists; split; reflexivity.
  - destruct (Board.SetPinMode (digitalPin pin) mode b) as [b1 [e |]];
      [eexists; split; reflexivity |].
    destruct (Board.ReportAnalog (digitalPin pin) 1 b1) as [b2 [e |]];
      eexists; split; reflexivity.
  - destruct (Board.SetPinMode pin mode b) as [b1 [e |]];
      eexists; split; reflexivity.
Qed.

(** X13.  [PinMode] logs its message exactly when it returns [nil]: a call
    that returns [nil] has added one message, which names the pin number
    used in the calls of the board (the remapped one for the mode Analog),
    and a call that returns an error has logged nothing. *)
Theorem PinMode_logs_exactly_on_nil :
  forall (ino : Goduino B) (b : B) (pin mode : Int.t) (r : option error),
    board ino = Some b ->
    returned (PinMode pin mode (observe ino)) = Some r ->
    logger (final (PinMode pin mode (observe ino))) =
    match r with
    | None => logger ino ++ [PinMode_line (PinMode_index pin mode) mode]
    | Some _ => logger ino
    end.
Proof.
  intros ino b pin mode r Hb Hr.
  destruct (PinMode_logs_on_success ino b pin mode Hb) as (r' & Hr' & Hl).
  rewrite Hr' in Hr. injection Hr as <-. exact Hl.
Qed.

(** X14.  The test of [PinMode] does not cover the remapped index: for the
    mode Analog and an index [p] that passes the test with
    [p + 14 >= len(Pins())], [SetPinMode] is called with [p + 14], which is
    not an index of the pin table. *)
Theorem PinMode_analog_beyond_table :
  forall (ino : Goduino B) (b : B) (p : Int.t),
    board ino = Some b ->
    Input <> Analog ->
    Int.in_range (p + 14) ->
    len (Board.Pins b) - 14 <= p <= len (Board.Pins b) ->
    index (Board.Pins b) (p + 14) = None /\
    exists rest,
      calls (final (PinMode p Analog (observe ino)))
      = SetPinModeCall (p + 14) Analog :: rest.
Proof.
  intros [n pt bo c op l x] b p Hb Hne Hr Hp. simpl in Hb. subst bo.
  split.
  - destruct (index (Board.Pins b) (p + 14)) eqn:E; [| reflexivity].
    assert (H : index (Board.Pins b) (p + 14) <> None)
      by (rewrite E; discriminate).
    apply index_in_bounds in H. lia.
  - assert (Hd : digitalPin p = p + 14)
      by (unfold digitalPin, Int.add; apply wrap_in_range, Hr).
    run_method. rewrite U8_of_int_nonneg.
    replace (p >? len (Board.Pins b)) with false
      by (symmetry; rewrite Z.gtb_ltb; apply Z.ltb_ge; lia).
    replace (Analog =? Input) with false
      by (symmetry; apply Z.eqb_neq; congruence).
    rewrite Z.eqb_refl, Hd.
    destruct (Board.SetPinMode (p + 14) Analog b) as [b1 [e |]];
      [eexists; reflexivity |].
    destruct (Board.ReportAnalog (p + 14) 1 b1) as [b2 [e |]];
      eexists; reflexivity.
Qed.

(** X15.  The logged mode name is computed from [uint8(mode)]: for a mode
    that is neither Input nor Analog but equals Input modulo 256, a
    successful [PinMode] has called [SetPinMode(pin, mode)] alone, with no
    [ReportDigital], and has logged the name INPUT. *)
Theorem PinMode_logged_name_wraps :
  forall (ino : Goduino B) (b : B) (pin mode : Int.t),
    board ino = Some b ->
    mode <> Input -> mode <> Analog -> mode mod 256 = Input ->
    let o := PinMode pin mode (observe ino) in
    returned o = Some None ->
    calls (final o) = [SetPinModeCall pin mode] /\
    logger (final o)
    = logger ino ++ [("pinMode(" ++ fmt_d pin ++ ", INPUT)" ++ crlf)%string].
Proof.
  intros [n pt bo c op l x] b pin mode Hb HI HA Hmod. simpl in Hb. subst bo.
  run_method. rewrite U8_of_int_nonneg.
  destruct (pin >? len (Board.Pins b)); [discriminate |].
  replace (mode =? Input) with false by (symmetry; apply Z.eqb_neq, HI).
  replace (mode =? Analog) with false by (symmetry; apply Z.eqb_neq, HA).
  destruct (Board.SetPinMode pin mode b) as [b1 [e |]]; [discriminate |].
  intros _. split; [reflexivity |].
  unfold PinMode_String, U8.of_int. rewrite Hmod, Z.eqb_refl. reflexivity.
Qed.

(** X16.  On a client whose board is [nil], [ServoWrite], [PwmWrite],
    [PinMode] and [ServoConfig] panic and leave the client as it was;
    [Disconnect] alone tests the board and returns [nil]. *)
Theorem nil_board :
  forall (ino : Goduino B) (pin x y : Int.t) (v : U8.t),
    board ino = None ->
    ServoWrite pin v ino = Panics ino /\
    PwmWrite pin v ino = Panics ino /\
    PinMode pin x ino = Panics ino /\
    ServoConfig pin x y ino = Panics ino /\
    Disconnect ino = Returns None ino.
Proof.
  intros [n pt bo c op l w] pin x y v Hb. simpl in Hb. subst bo.
  run_method. rewrite U8_of_int_nonneg. repeat split.
Qed.

(** X17.  Without a connection, when the port cannot be opened, [Connect]
    returns the error of the attempt; the board is not called and the client
    is left as it was, still without a connection. *)
Theorem Connect_open_failure :
  forall (ino : Goduino B) (e : error),
    conn ino = None ->
    openSP ino (Port ino) = inr e ->
    Connect (observe ino) = Returns (Some e) (observe ino).
Proof.
  intros [n pt bo c op l w] e Hc Ho. simpl in Hc. subst c.
  unfold Port in Ho. cbn [port openSP] in Ho.
  run_method. rewrite Ho. reflexivity.
Qed.



(** X22.  [ServoWrite], [PwmWrite], [PinMode], [ServoConfig] and
    [Disconnect] never change the name, the port or the connection of the
    client, whether they return or panic. *)
Theorem methods_keep_connection :
  forall (ino : Goduino B) (pin x y : Int.t) (v : U8.t),
    let keeps (s : Goduino B) :=
      name s = name ino /\ port s = port ino /\ conn s = conn ino in
    keeps (final (ServoWrite pin v ino)) /\
    keeps (final (PwmWrite pin v ino)) /\
    keeps (final (PinMode pin x ino)) /\
    keeps (final (ServoConfig pin x y ino)) /\
    keeps (final (Disconnect ino)).
Proof.
  intros [n pt [b |] c op l w] pin x y v; cbv zeta;
    run_method; rewrite U8_of_int_nonneg.
  2: repeat split.
  split; [| split; [| split; [| split]]].
  - destruct (index (Board.Pins b) pin) as [p |]; [| repeat split].
    destruct (negb (Mode p =? Servo)).
    + destruct (Board.SetPinMode pin Servo b) as [b1 [e |]]; [repeat split |].
      destruct (Board.AnalogWrite pin v b1). repeat split.
    + destruct (Board.AnalogWrite pin v b). repeat split.
  - destruct (index (Board.Pins b) pin) as [p |]; [| repeat split].
    destruct (negb (Mode p =? Pwm)).
    + destruct (Board.SetPinMode pin Pwm b) as [b1 [e |]]; [repeat split |].
      destruct (Board.AnalogWrite pin v b1). repeat split.
    + destruct (Board.AnalogWrite pin v b). repeat split.
  - destruct (pin >? len (Board.Pins b)); [repeat split |].
    destruct (x =? Input); [| destruct (x =? Analog)].
    + destruct (Board.SetPinMode pin x b) as [b1 [e |]]; [repeat split |].
      destruct (Board.ReportDigital pin 1 b1) as [b2 [e |]]; repeat split.
    + destruct (Board.SetPinMode (digitalPin pin) x b) as [b1 [e |]];
        [repeat split |].
      destruct (Board.ReportAnalog (digitalPin pin) 1 b1) as [b2 [e |]];
        repeat split.
    + destruct (Board.SetPinMode pin x b) as [b1 [e |]]; repeat split.
  - destruct (Board.ServoConfig pin y x b). repeat split.
  - destruct (Board.Disconnect b). repeat split.
Qed.

End ClientFurther.

(** What the loop of [New] over the arguments does to a client. *)
Lemma New_args_fields (T : Type) (args : list arg) :
  forall ino0 : Goduino T,
    let ino := fold_left New_arg args ino0 in
    name ino = name ino0 /\
    port ino = match last_string args with
               | Some s => s
               | None => port ino0
               end /\
    conn ino = match last_conn args with
               | Some c => Some c
               | None => conn ino0
               end /\
    board ino = board ino0 /\
    openSP ino = openSP ino0 /\
    logger ino = logger ino0 /\
    verbose ino = verbose ino0.
Proof.
  induction args as [| a rest IH]; intros ino0; [repeat split |].
  cbn [fold_left]. cbv zeta in *.
  destruct (IH (New_arg ino0 a)) as (Hn & Hp & Hc & Hb & Ho & Hl & Hv).
  rewrite Hn, Hp, Hc, Hb, Ho, Hl, Hv. cbn [last_string last_conn].
  destruct (last_string rest), (last_conn rest), a; repeat split.
Qed.

(** X20.  [New] returns a client named [name], with a board from
    [firmata.New()] (never [nil]) and an empty log; its port is the last
    string among the arguments ([""] when there is none), its connection the
    last [io.ReadWriteCloser] among them ([nil] when there is none), and
    arguments of any other type are ignored; its [openSP] opens the serial
    port of the given name at 57600 baud. *)
Theorem New_fields :
  forall (T : Type) (firmata_New : T)
         (serial_OpenPort : string -> Z -> ReadWriteCloser + error)
         (nm : string) (args : list arg),
    let ino := New firmata_New serial_OpenPort nm args in
    Name ino = nm /\
    Port ino = match last_string args with
               | Some s => s
               | None => EmptyString
               end /\
    conn ino = last_conn args /\
    board ino = Some firmata_New /\
    openSP ino = (fun port => serial_OpenPort port 57600) /\
    logger ino = [] /\
    verbose ino = true.
Proof.
  intros T fn so nm args. cbv zeta. unfold New, Name, Port.
  match goal with
  | |- context [fold_left New_arg args ?i] =>
      destruct (New_args_fields T args i) as (Hn & Hp & Hc & Hb & Ho & Hl & Hv)
  end.
  rewrite Hn, Hp, Hc, Hb, Ho, Hl, Hv. cbn [name port conn board openSP].
  repeat split. destruct (last_conn args); reflexivity.
Qed.

Section ConstructorProperties.

Context (B : Type) (firmata_board : Board.firmataBoard B).


End ConstructorProperties.

(* ================================================================= *)
(** * The further properties on concrete boards *)

Section FurtherExamples.

#[local] Existing Instance firmata_modes.

Lemma ServoWrite_in_servo_mode_witness :
  calls (final (ServoWrite 5 90 (observe (client (uno_in 4)))))
  = [AnalogWriteCall 5 90] /\
  returned (ServoWrite 5 90 (observe (client (uno_in 4)))) = Some None.
Proof.
  pose proof (ServoWrite_in_servo_mode firmata_modes Engine.t _
                (client (uno_in 4)) (uno_in 4) 5 90 (pin_in 4)
                eq_refl eq_refl eq_refl) as H.
  cbv zeta in H. destruct H as (H1 & H2 & _).
  split; [exact H1 | exact H2].
Defined.

Lemma PwmWrite_calls_witness :
  (calls (final (PwmWrite 5 128 (observe (client (uno_in 3)))))
   = [AnalogWriteCall 5 128] /\
   returned (PwmWrite 5 128 (observe (client (uno_in 3)))) = Some None) /\
  (calls (final (PwmWrite 5 128 (observe (client uno))))
   = [SetPinModeCall 5 Pwm; AnalogWriteCall 5 128] /\
   returned (PwmWrite 5 128 (observe (client uno))) = Some None).
Proof.
  split.
  - exact (PwmWrite_calls firmata_modes Engine.t _
             (client (uno_in 3)) (uno_in 3) 5 128 (pin_in 3)
             eq_refl eq_refl).
  - exact (PwmWrite_calls firmata_modes Engine.t _
             (client uno) uno 5 128 (pin_in 0) eq_refl eq_refl).
Defined.


Lemma PinMode_rejects_above_length_witness :
  PinMode 21 Output (observe (client uno))
  = Returns (Some (Errorf ("Invalid pin number " ++ fmt_d 21 ++ lf)))
      (observe (client uno)) /\
  PinMode_refuses (client uno) 21 Output.
Proof.
  apply (PinMode_rejects_above_length firmata_modes Engine.t _
           (client uno) uno 21 Output eq_refl).
  unfold len. simpl. lia.
Defined.

Lemma PinMode_logs_exactly_on_nil_witness :
  logger (final (PinMode 2 Analog (observe (client uno))))
  = logger (client uno) ++ [PinMode_line (PinMode_index 2 Analog) Analog] /\
  logger (final (PinMode 10 Analog (observe (client uno))))
  = logger (client uno).
Proof.
  split.
  - exact (PinMode_logs_exactly_on_nil firmata_modes Engine.t _
             (client uno) uno 2 Analog None eq_refl eq_refl).
  - exact (PinMode_logs_exactly_on_nil firmata_modes Engine.t _
             (client uno) uno 10 Analog (Some (BoardError OutOfRange))
             eq_refl eq_refl).
Defined.

(** The message of the witness above names pin 16. *)
Lemma PinMode_analog_logs_remapped_pin :
  returned (PinMode 2 Analog (observe (client uno))) = Some None /\
  logger (final (PinMode 2 Analog (observe (client uno))))
  = [("pinMode(16, ANALOG)" ++ crlf)%string].
Proof. split; reflexivity. Qed.

Lemma PinMode_analog_beyond_table_witness :
  index (Board.Pins uno) (10 + 14) = None /\
  exists rest,
    calls (final (PinMode 10 Analog (observe (client uno))))
    = SetPinModeCall (10 + 14) Analog :: rest.
Proof.
  assert (Hne : Input <> Analog) by (simpl; lia).
  assert (Hr : Int.in_range (10 + 14))
    by (unfold Int.in_range, Int.min_int, Int.max_int; lia).
  apply (PinMode_analog_beyond_table firmata_modes Engine.t _
           (client uno) uno 10 eq_refl Hne Hr).
  unfold len. simpl. lia.
Defined.

Lemma PinMode_logged_name_wraps_witness :
  calls (final (PinMode 2 256 (observe (client uno_wide))))
  = [SetPinModeCall 2 256] /\
  logger (final (PinMode 2 256 (observe (client uno_wide))))
  = logger (client uno_wide)
    ++ [("pinMode(" ++ fmt_d 2 ++ ", INPUT)" ++ crlf)%string].
Proof.
  apply (PinMode_logged_name_wraps firmata_modes Engine.t _
           (client uno_wide) uno_wide 2 256 eq_refl).
  - simpl. lia.
  - simpl. lia.
  - reflexivity.
  - reflexivity.
Defined.

Lemma nil_board_witness :
  ServoWrite 5 90 (unplugged (B := Engine.t) None)
  = Panics (unplugged None) /\
  PwmWrite 5 90 (unplugged (B := Engine.t) None) = Panics (unplugged None) /\
  PinMode 5 1 (unplugged (B := Engine.t) None) = Panics (unplugged None) /\
  ServoConfig 5 1 2 (unplugged (B := Engine.t) None)
  = Panics (unplugged None) /\
  Disconnect (unplugged (B := Engine.t) None)
  = Returns None (unplugged None).
Proof.
  exact (nil_board firmata_modes Engine.t _ (unplugged None) 5 1 2 90
           eq_refl).
Defined.

Lemma Connect_open_failure_witness :
  Connect (observe (unplugged (Some uno)))
  = Returns (Some (Errorf "no such file or directory"))
      (observe (unplugged (Some uno))).
Proof.
  exact (Connect_open_failure Engine.t _ (unplugged (Some uno))
           (Errorf "no such file or directory") eq_refl eq_refl).
Defined.



End FurtherExamples.
